(** * TicketBoss reservation engine: optimistic locking over a document store

Shallow embedding of
  - src/models/event.model.ts, src/models/reservation.model.ts
  - src/repositories/event.repository.ts, reservation.repository.ts
  - src/services/reservation.service.ts
  - src/db/database.ts (seedData), src/config/constants.ts

Numbers are [Z] (the validation middleware admits integers only), dates
are millisecond timestamps in [Z], and a collection with a unique index
is a finite map from the indexed key to the rest of the document. *)

From stdpp Require Import gmap strings list fin_maps sorting.

Local Open Scope Z_scope.

(** ** src/config/constants.ts *)

Module APP_CONFIG.
Definition DEFAULT_EVENT_ID : string := "node-meetup-2025".
Definition MAX_SEATS_PER_RESERVATION : Z := 10.
Definition MIN_SEATS_PER_RESERVATION : Z := 1.
End APP_CONFIG.

(** What a service call can throw: the four [new Error(ERROR_MESSAGES.X)] of
    the service, and the duplicate key error (E11000) that the unique index
    on [reservation_id] / [event_id] raises on insertion. *)
Inductive ServiceError : Type :=
  | NOT_ENOUGH_SEATS
  | RESERVATION_NOT_FOUND
  | EVENT_NOT_FOUND
  | CONCURRENT_UPDATE_DETECTED
  | DUPLICATE_KEY.

Module ERROR_MESSAGES.
Definition message (e : ServiceError) : string :=
    match e with
    | NOT_ENOUGH_SEATS => "Not enough seats left"
    | RESERVATION_NOT_FOUND => "Reservation not found or already cancelled"
    | EVENT_NOT_FOUND => "Event not found"
    | CONCURRENT_UPDATE_DETECTED => "Concurrent update detected, please retry"
    | DUPLICATE_KEY => "E11000 duplicate key error"
    end.

Definition PARTNER_ID_REQUIRED : string :=
  "partnerId is required and must be a non-empty string".
Definition SEATS_REQUIRED : string := "seats is required".
Definition SEATS_MUST_BE_INTEGER : string := "seats must be an integer".
Definition SEATS_MUST_BE_POSITIVE : string := "seats must be greater than 0".
Definition SEATS_MAX_EXCEEDED : string := "seats must not exceed 10 per request".
Definition INVALID_RESERVATION_ID : string := "Invalid reservationId".
Definition NOT_ENOUGH_SEATS : string := "Not enough seats left".
Definition RESERVATION_NOT_FOUND : string :=
  "Reservation not found or already cancelled".
Definition EVENT_NOT_FOUND : string := "Event not found".
Definition INTERNAL_SERVER_ERROR : string := "Internal server error".
Definition CONCURRENT_UPDATE_DETECTED : string :=
  "Concurrent update detected, please retry".
End ERROR_MESSAGES.

Global Instance ServiceError_eq_dec : EqDecision ServiceError.
Proof. solve_decision. Defined.

(** ** src/models/event.model.ts

[event_id] carries a unique index: it is the key of the collection. *)

Record IEvent : Type := mkEvent {
  name : string;
  total_seats : Z;
  available_seats : Z;
  version : Z;
  event_created_at : Z;
  updated_at : Z
}.

(** ** src/models/reservation.model.ts

[reservation_id] carries a unique index: it is the key of the collection. *)

Inductive ReservationStatus : Type := confirmed | cancelled.

Global Instance ReservationStatus_eq_dec : EqDecision ReservationStatus.
Proof. solve_decision. Defined.

Record IReservation : Type := mkReservation {
  event_id : string;
  partner_id : string;
  seats : Z;
  status : ReservationStatus;
  created_at : Z;
  cancelled_at : option Z
}.

Global Instance IEvent_eq_dec : EqDecision IEvent.
Proof. solve_decision. Defined.

Global Instance IReservation_eq_dec : EqDecision IReservation.
Proof. solve_decision. Defined.

(** ** The database: the two collections *)

Record Store : Type := mkStore {
  events : gmap string IEvent;
  reservations : gmap string IReservation
}.

Definition emptyStore : Store := mkStore ∅ ∅.

Definition setEvents (s : Store) (m : gmap string IEvent) : Store :=
  mkStore m (reservations s).

Definition setReservations (s : Store) (m : gmap string IReservation) : Store :=
  mkStore (events s) m.

(** ** src/repositories/event.repository.ts *)

Module EventRepository.

(** [EventModel.findOne({ event_id: eventId })] *)
Definition findById (eventId : string) (s : Store) : option IEvent :=
  events s !! eventId.

(** The filter of [updateOne]: the document with this [event_id] matches
    when its [version] is [currentVersion] and
    [$gte: [{ $add: ['$available_seats', seatsChange] }, 0]]. *)
Definition matches (seatsChange currentVersion : Z) (ev : IEvent) : bool :=
  (version ev =? currentVersion) && (0 <=? available_seats ev + seatsChange).

(** The update document: [$inc] of [available_seats] and [version],
    [$set] of [updated_at]. *)
Definition applyUpdate (seatsChange now : Z) (ev : IEvent) : IEvent :=
  mkEvent (name ev) (total_seats ev)
          (available_seats ev + seatsChange)
          (version ev + 1)
          (event_created_at ev) now.

(** [updateSeatsWithVersion]: one [updateOne]; the result is
    [modifiedCount > 0]. [now] is the value of [new Date()]. *)
Definition updateSeatsWithVersion
    (eventId : string) (seatsChange currentVersion now : Z) (s : Store)
    : bool * Store :=
  match events s !! eventId with
  | Some ev =>
      if matches seatsChange currentVersion ev
      then (true, setEvents s (<[eventId := applyUpdate seatsChange now ev]> (events s)))
      else (false, s)
  | None => (false, s)
  end.

(** [countDocuments({ event_id: eventId, status: 'confirmed' })] *)
Definition getReservationCount (eventId : string) (s : Store) : Z :=
  Z.of_nat (size (filter (λ kr : string * IReservation,
                            event_id kr.2 = eventId ∧ status kr.2 = confirmed)
                         (reservations s))).

(** [EventModel.create]: insertion, refused by the unique index when the
    [event_id] is taken. Mongoose stamps [created_at] and [updated_at]. *)
Definition create
    (eventId nm : string) (totalSeats availableSeats ver now : Z) (s : Store)
    : (ServiceError + IEvent) * Store :=
  match events s !! eventId with
  | Some _ => (inl DUPLICATE_KEY, s)
  | None =>
      let ev := mkEvent nm totalSeats availableSeats ver now now in
      (inr ev, setEvents s (<[eventId := ev]> (events s)))
  end.

End EventRepository.

(** ** src/repositories/reservation.repository.ts *)

Module ReservationRepository.

(** [ReservationModel.create]: status ['confirmed'], [cancelled_at] at its
    default [null], [created_at] stamped by Mongoose; refused by the unique
    index when the [reservation_id] is taken. *)
Definition create
    (reservationId eventId partnerId : string) (nseats now : Z) (s : Store)
    : (ServiceError + IReservation) * Store :=
  match reservations s !! reservationId with
  | Some _ => (inl DUPLICATE_KEY, s)
  | None =>
      let r := mkReservation eventId partnerId nseats confirmed now None in
      (inr r, setReservations s (<[reservationId := r]> (reservations s)))
  end.

(** [findOne({ reservation_id: reservationId, status: 'confirmed' })] *)
Definition findConfirmedById (reservationId : string) (s : Store)
    : option IReservation :=
  match reservations s !! reservationId with
  | Some r => if decide (status r = confirmed) then Some r else None
  | None => None
  end.

(** The [$set] of [cancel]. *)
Definition markCancelled (now : Z) (r : IReservation) : IReservation :=
  mkReservation (event_id r) (partner_id r) (seats r) cancelled
                (created_at r) (Some now).

(** [cancel]: [updateOne({ reservation_id })] with the [$set] above; the
    filter does not look at [status]. The result is [modifiedCount > 0]:
    a matched document that the [$set] leaves as it was is not counted. *)
Definition cancel (reservationId : string) (now : Z) (s : Store)
    : bool * Store :=
  match reservations s !! reservationId with
  | Some r =>
      (bool_decide (markCancelled now r ≠ r),
       setReservations s (<[reservationId := markCancelled now r]> (reservations s)))
  | None => (false, s)
  end.

End ReservationRepository.

(** ** src/db/database.ts: [seedData] *)

Definition seedData (now : Z) (s : Store) : Store :=
  match events s !! "node-meetup-2025" with
  | None =>
      (EventRepository.create "node-meetup-2025" "Node.js Meet-up" 500 500 0 now s).2
  | Some _ => s
  end.

(** The database after the first start: seeded from nothing. *)
Definition seeded (now : Z) : Store := seedData now emptyStore.

(** ** Sessions and transactions (mongoose [ClientSession])

A service method talks to the database in a sequence of awaited calls.
Each call is one atomic operation of the store; between two calls the
other clients of the database may run. A session keeps two databases:
[inside], what the calls made through the session read and write, and
[outside], the same database without the writes of this session.
[commitTransaction] publishes [inside]; [abortTransaction] falls back
to [outside]. *)

Record Session : Type := mkSession {
  outside : Store;
  inside : Store
}.

(** What surrounds one service call: [env i] is what the other clients do
    to the database at the [i]-th gap between two awaited calls,
    [clock i] the value of [new Date()] in the call that follows that gap,
    and [uuidv4] the identifier the generator hands out. *)
Record World : Type := mkWorld {
  env : nat → Store → Store;
  clock : nat → Z;
  uuidv4 : string
}.

(** Nobody else touches the database. *)
Definition quiet (clk : nat → Z) (uuid : string) : World :=
  mkWorld (λ _ s, s) clk uuid.

Definition Tx (A : Type) : Type := Session → (ServiceError + A) * Session.

Definition ret {A} (a : A) : Tx A := λ ss, (inr a, ss).

Definition throw {A} (e : ServiceError) : Tx A := λ ss, (inl e, ss).

Definition bind {A B} (m : Tx A) (k : A → Tx B) : Tx B :=
  λ ss, match m ss with
        | (inr a, ss') => k a ss'
        | (inl e, ss') => (inl e, ss')
        end.

Notation "x <- m ;; k" := (bind m (λ x, k))
  (at level 100, m at next level, right associativity).
Notation "m ;;; k" := (bind m (λ _, k))
  (at level 100, right associativity).

(** A query made through the session. *)
Definition query {A} (f : Store → A) : Tx A :=
  λ ss, (inr (f (inside ss)), ss).

(** An update made through the session. *)
Definition update {A} (f : Store → A * Store) : Tx A :=
  λ ss, let '(a, s') := f (inside ss) in (inr a, mkSession (outside ss) s').

(** An insertion made through the session: it may throw. *)
Definition insert_ {A} (f : Store → (ServiceError + A) * Store) : Tx A :=
  λ ss, let '(r, s') := f (inside ss) in (r, mkSession (outside ss) s').

(** The gap between two awaited calls. *)
Definition gap (w : World) (i : nat) : Tx unit :=
  λ ss, (inr (), mkSession (env w i (outside ss)) (env w i (inside ss))).

(** [startTransaction(); try { work; commitTransaction() }
     catch (error) { abortTransaction(); throw error }] *)
Definition transaction {A} (work : Tx A) (s : Store) : (ServiceError + A) * Store :=
  match work (mkSession s s) with
  | (inr a, ss) => (inr a, inside ss)
  | (inl e, ss) => (inl e, outside ss)
  end.

(** ** src/types: the service's results *)

Module EventSummary.
Record t : Type := mk {
    eventId : string;
    name : string;
    totalSeats : Z;
    availableSeats : Z;
    reservationCount : Z;
    version : Z
  }.
End EventSummary.

Module ReservationView.
Record t : Type := mk {
    reservationId : string;
    partnerId : string;
    seats : Z;
    status : ReservationStatus;
    createdAt : Z
  }.
End ReservationView.

(** ** src/services/reservation.service.ts *)

Module ReservationService.

Section Service.
Variable w : World.

Definition reserveSeats (eventId partnerId : string) (nseats : Z)
    : Store → (ServiceError + string) * Store :=
  transaction (
    (* STEP 1 *)
    event <- query (EventRepository.findById eventId) ;;
    match event with
    | None => throw EVENT_NOT_FOUND
    | Some event =>
        (* STEP 2 *)
        if available_seats event <? nseats then throw NOT_ENOUGH_SEATS
        else
          gap w 1 ;;;
          (* STEP 3 *)
          updated <- update (EventRepository.updateSeatsWithVersion
                               eventId (- nseats) (version event) (clock w 1)) ;;
          if negb updated then throw CONCURRENT_UPDATE_DETECTED
          else
            gap w 2 ;;;
            (* STEP 4 *)
            let reservationId := uuidv4 w in
            _ <- insert_ (ReservationRepository.create
                            reservationId eventId partnerId nseats (clock w 2)) ;;
            gap w 3 ;;;
            (* STEP 5 *)
            ret reservationId
    end).

Definition cancelReservation (reservationId : string)
    : Store → (ServiceError + unit) * Store :=
  transaction (
    (* STEP 1 *)
    reservation <- query (ReservationRepository.findConfirmedById reservationId) ;;
    match reservation with
    | None => throw RESERVATION_NOT_FOUND
    | Some reservation =>
        gap w 1 ;;;
        (* STEP 2 *)
        event <- query (EventRepository.findById (event_id reservation)) ;;
        match event with
        | None => throw EVENT_NOT_FOUND
        | Some event =>
            gap w 2 ;;;
            (* STEP 3: the boolean of [cancel] is dropped *)
            _ <- update (ReservationRepository.cancel reservationId (clock w 2)) ;;
            gap w 3 ;;;
            (* STEP 4 *)
            updated <- update (EventRepository.updateSeatsWithVersion
                                 (event_id reservation) (seats reservation)
                                 (version event) (clock w 3)) ;;
            if negb updated then throw CONCURRENT_UPDATE_DETECTED
            else
              gap w 4 ;;;
              (* STEP 5 *)
              ret ()
        end
    end).

(** No session: two plain reads. *)
Definition getEventSummary (eventId : string) (s : Store)
    : option EventSummary.t * Store :=
  match EventRepository.findById eventId s with
  | None => (None, s)
  | Some event =>
      let s1 := env w 1 s in
      (Some (EventSummary.mk eventId (name event) (total_seats event)
               (available_seats event)
               (EventRepository.getReservationCount eventId s1)
               (version event)),
       s1)
  end.

End Service.

(** [sort({ created_at: -1 })]: newest first. *)
Definition newestFirst (x y : string * IReservation) : Prop :=
  created_at y.2 ≤ created_at x.2.

Global Instance newestFirst_dec : RelDecision newestFirst.
Proof. intros x y. unfold newestFirst. apply _. Defined.

Definition toView (kr : string * IReservation) : ReservationView.t :=
  ReservationView.mk kr.1 (partner_id kr.2) (seats kr.2) (status kr.2)
                     (created_at kr.2).

(** [ReservationModel.find({ event_id: eventId }).sort({ created_at: -1 })]
    and the [map] to the response objects: one query, no write. *)
Definition getAllReservations (eventId : string) (s : Store)
    : list ReservationView.t :=
  toView <$>
    merge_sort newestFirst
      (filter (λ kr : string * IReservation, event_id kr.2 = eventId)
              (map_to_list (reservations s))).

End ReservationService.

(** ** The conditional adjust as the specification words it

Second definition, following the specification's sentence and not the
source: the write is guarded by the version and by
[0 ≤ available + delta ≤ capacity]. It is compared with
[EventRepository.updateSeatsWithVersion] below. *)
Definition conditionalAdjust
(poolId : string) (delta expectedVersion now : Z) (s : Store) : bool * Store :=
match events s !! poolId with
| Some ev =>
  if (version ev =? expectedVersion)
     && (0 <=? available_seats ev + delta)
     && (available_seats ev + delta <=? total_seats ev)
  then (true, setEvents s (<[poolId := EventRepository.applyUpdate delta now ev]> (events s)))
  else (false, s)
| None => (false, s)
end.

(** Σ(units of the reservations with status confirmed for that pool). *)
Definition contribution (eventId : string) (r : IReservation) : Z :=
  if decide (event_id r = eventId ∧ status r = confirmed) then seats r else 0.

Definition unitsOf (eventId : string) (m : gmap string IReservation) : Z :=
  map_fold (λ _ r acc, contribution eventId r + acc) 0 m.

Definition confirmedUnits (eventId : string) (s : Store) : Z :=
  unitsOf eventId (reservations s).

(** Newest first, on the listing: [a] was created no earlier than [b]. *)
Definition newerOrSame (a b : ReservationView.t) : Prop :=
  ReservationView.createdAt b ≤ ReservationView.createdAt a.

(** What the engine keeps true of the whole database: every reservation is
    for at least one seat, and every pool has a non-negative number of seats
    available, which is its capacity less the confirmed units. *)
Definition consistent (s : Store) : Prop :=
  (∀ rid r, reservations s !! rid = Some r → 1 ≤ seats r)
  ∧ (∀ eid ev, events s !! eid = Some ev →
       0 ≤ available_seats ev
       ∧ available_seats ev = total_seats ev - confirmedUnits eid s).

(** ** The engine as a transition system

One call of the service, the reply the caller gets, and the database
after it. *)

Inductive Call : Type :=
  | Reserve (eventId partnerId : string) (nseats : Z)
  | Cancel (reservationId : string)
  | Summarize (eventId : string)
  | ListAll (eventId : string).

Inductive Reply : Type :=
  | Reserved (r : ServiceError + string)
  | Cancelled (r : ServiceError + unit)
  | Summary (r : option EventSummary.t)
  | Listing (r : list ReservationView.t).

Definition exec (w : World) (c : Call) (s : Store) : Reply * Store :=
  match c with
  | Reserve eventId partnerId nseats =>
      let '(r, s') := ReservationService.reserveSeats w eventId partnerId nseats s in
      (Reserved r, s')
  | Cancel reservationId =>
      let '(r, s') := ReservationService.cancelReservation w reservationId s in
      (Cancelled r, s')
  | Summarize eventId =>
      let '(r, s') := ReservationService.getEventSummary w eventId s in
      (Summary r, s')
  | ListAll eventId =>
      (Listing (ReservationService.getAllReservations eventId s), s)
  end.

(** The arguments the service is called with have passed
    [validateReservationRequest]: [seats] is an integer and
    [seats >= MIN_SEATS_PER_RESERVATION]. *)
Definition admissible (c : Call) : Prop :=
  match c with
  | Reserve _ _ nseats => APP_CONFIG.MIN_SEATS_PER_RESERVATION ≤ nseats
  | _ => True
  end.

(** The states the engine reaches from the seeded database, one call after
    the other. *)
Inductive reachable : Store → Prop :=
  | reachable_seeded (now : Z) : reachable (seeded now)
  | reachable_exec (s : Store) (c : Call) (clk : nat → Z) (uuid : string) :
      reachable s → admissible c → reachable (exec (quiet clk uuid) c s).2.

(** The database as the other clients alone have left it after the first
    [k] gaps of a call. *)
Fixpoint others (w : World) (k : nat) (s : Store) : Store :=
  match k with
  | O => s
  | S k' => env w k (others w k' s)
  end.

(** The invariant of the pool [eventId]. *)
Definition poolInvariant (eventId : string) (s : Store) : Prop :=
  ∀ ev, events s !! eventId = Some ev →
    0 ≤ available_seats ev ≤ total_seats ev
    ∧ available_seats ev = total_seats ev - confirmedUnits eventId s.

(** The database after a reserve that went through, when no other client
    ran: the pool adjusted by [- nseats], the reservation inserted. *)
Definition reservedStore (w : World) (eventId partnerId : string) (nseats : Z)
    (ev : IEvent) (s : Store) : Store :=
  mkStore (<[eventId := EventRepository.applyUpdate (- nseats) (clock w 1) ev]>
             (events s))
          (<[uuidv4 w := mkReservation eventId partnerId nseats confirmed
                           (clock w 2) None]>
             (reservations s)).

(** The database after a cancel that went through, when no other client ran:
    the reservation marked, its seats back in the pool. *)
Definition cancelledStore (w : World) (reservationId : string)
    (r : IReservation) (ev : IEvent) (s : Store) : Store :=
  mkStore (<[event_id r := EventRepository.applyUpdate (seats r) (clock w 3) ev]>
             (events s))
          (<[reservationId := ReservationRepository.markCancelled (clock w 2) r]>
             (reservations s)).

(** ** Scenarios

Concrete databases and concrete surroundings, used below to run the
service. *)

Module Scenario.
Import ReservationService.

Definition pool : string := APP_CONFIG.DEFAULT_EVENT_ID.

(** The seeded pool after partner "p1" reserved 5 seats as "r1":
    495 seats available, version 1. *)
Definition oneReservation : Store :=
  (reserveSeats (quiet (λ _, 7) "r1") pool "p1" 5 (seeded 0)).2.

(** ... and after "r1" was cancelled again: 500 seats, version 2. *)
Definition oneCancelled : Store :=
  (cancelReservation (quiet (λ _, 9) "") "r1" oneReservation).2.

(** Another client runs a whole call in gap [i]. *)
Definition duringGap (i : nat) (other : Store → Store) (clk : Z) (uuid : string)
    : World :=
  mkWorld (λ j s, if Nat.eqb j i then other s else s) (λ _, clk) uuid.

(** Another client reserves 3 seats as "r2". *)
Definition otherReserve (s : Store) : Store :=
  (reserveSeats (quiet (λ _, 8) "r2") pool "p2" 3 s).2.


(** The seeded pool after "r1" (5 seats, at 7) and "r2" (3 seats, at 8). *)
Definition twoReservations : Store := otherReserve oneReservation.


End Scenario.

(** ** src/config/constants.ts: HTTP_STATUS *)

Module HTTP_STATUS.
Definition OK : Z := 200.
Definition CREATED : Z := 201.
Definition NO_CONTENT : Z := 204.
Definition BAD_REQUEST : Z := 400.
Definition NOT_FOUND : Z := 404.
Definition CONFLICT : Z := 409.
Definition INTERNAL_SERVER_ERROR : Z := 500.
End HTTP_STATUS.

(** ** The values of a parsed JSON body

    A number of the body is integer-valued or not; the middleware looks at
    the value of a number only after [Number.isInteger] has passed. An
    object or an array is [JObject]. Strings are sequences of code units
    below 256. *)

Inductive JsNumber : Type :=
  | JInt (z : Z)
  | JFraction.

Inductive JsValue : Type :=
  | JUndefined
  | JNull
  | JBoolean (b : bool)
  | JNumber (n : JsNumber)
  | JString (s : string)
  | JObject.

Global Instance JsNumber_eq_dec : EqDecision JsNumber.
Proof. solve_decision. Defined.

Global Instance JsValue_eq_dec : EqDecision JsValue.
Proof. solve_decision. Defined.

Inductive JsType : Type := TUndefined | TObject | TBoolean | TNumber | TString.

Global Instance JsType_eq_dec : EqDecision JsType.
Proof. solve_decision. Defined.

(** [typeof v] *)
Definition typeof (v : JsValue) : JsType :=
  match v with
  | JUndefined => TUndefined
  | JNull => TObject
  | JBoolean _ => TBoolean
  | JNumber _ => TNumber
  | JString _ => TString
  | JObject => TObject
  end.

(** [!v] *)
Definition falsy (v : JsValue) : bool :=
  match v with
  | JUndefined | JNull => true
  | JBoolean b => negb b
  | JNumber (JInt z) => z =? 0
  | JNumber JFraction => false
  | JString s => String.eqb s ""
  | JObject => false
  end.

(** [Number.isInteger(v)] *)
Definition isInteger (v : JsValue) : bool :=
  match v with
  | JNumber (JInt _) => true
  | _ => false
  end.

(** The casts of TypeScript: a value read at the type the checks before it
    have established. *)
Definition asString (v : JsValue) : string :=
  match v with JString s => s | _ => "" end.

Definition asInteger (v : JsValue) : Z :=
  match v with JNumber (JInt z) => z | _ => 0 end.

(** White space and line terminators of [String.prototype.trim], among the
    code units below 256: TAB, LF, VT, FF, CR, SP, NBSP. *)
Definition isWhiteSpace (c : Ascii.ascii) : bool :=
  existsb (Nat.eqb (Ascii.nat_of_ascii c)) [9; 10; 11; 12; 13; 32; 160]%nat.

Fixpoint trimStart (s : string) : string :=
  match s with
  | EmptyString => EmptyString
  | String c s' => if isWhiteSpace c then trimStart s' else s
  end.

Fixpoint trimEnd (s : string) : string :=
  match s with
  | EmptyString => EmptyString
  | String c s' =>
      match trimEnd s' with
      | EmptyString => if isWhiteSpace c then EmptyString else String c EmptyString
      | t => String c t
      end
  end.

(** [s.trim()] *)
Definition trim (s : string) : string := trimEnd (trimStart s).

(** A string of white space only. *)
Definition blank (s : string) : Prop :=
  Forall (λ c, isWhiteSpace c = true) (String.list_ascii_of_string s).

(** ** src/types *)

Module RequestBody.
Record t : Type := mk {
  partnerId : JsValue;
  seats : JsValue
}.
End RequestBody.

Module ReservationRequest.
Record t : Type := mk {
  partnerId : string;
  seats : Z
}.
End ReservationRequest.

(** What [res.status(..).json(..)] or [res.status(..).send()] sends. *)
Inductive ResponseBody : Type :=
  | ErrorResponse (error : string)
  | ReservationResponse (reservationId : string) (nseats : Z)
      (st : ReservationStatus)
  | SummaryResponse (summary : EventSummary.t)
  | ListResponse (eventId : string) (totalReservations : nat)
      (rs : list ReservationView.t)
  | NoBody.

Record HttpResponse : Type := mkResponse {
  statusCode : Z;
  payload : ResponseBody
}.

(** ** src/middleware/validation.ts

    A middleware answers, or calls [next()] and the handler after it runs on
    the request. *)

Definition badRequest (msg : string) : HttpResponse :=
  mkResponse HTTP_STATUS.BAD_REQUEST (ErrorResponse msg).

Definition validateReservationRequest (body : RequestBody.t)
    : HttpResponse + ReservationRequest.t :=
  let partnerId := RequestBody.partnerId body in
  let seats := RequestBody.seats body in
  if falsy partnerId
     || negb (bool_decide (typeof partnerId = TString))
     || String.eqb (trim (asString partnerId)) ""
  then inl (badRequest ERROR_MESSAGES.PARTNER_ID_REQUIRED)
  else if bool_decide (seats = JUndefined) || bool_decide (seats = JNull)
  then inl (badRequest ERROR_MESSAGES.SEATS_REQUIRED)
  else if negb (bool_decide (typeof seats = TNumber)) || negb (isInteger seats)
  then inl (badRequest ERROR_MESSAGES.SEATS_MUST_BE_INTEGER)
  else if asInteger seats <? APP_CONFIG.MIN_SEATS_PER_RESERVATION
  then inl (badRequest ERROR_MESSAGES.SEATS_MUST_BE_POSITIVE)
  else if APP_CONFIG.MAX_SEATS_PER_RESERVATION <? asInteger seats
  then inl (badRequest ERROR_MESSAGES.SEATS_MAX_EXCEEDED)
  else inr (ReservationRequest.mk (asString partnerId) (asInteger seats)).

(** The route parameter is a string. *)
Definition validateReservationId (reservationId : string)
    : HttpResponse + string :=
  if String.eqb reservationId "" || String.eqb (trim reservationId) ""
  then inl (badRequest ERROR_MESSAGES.INVALID_RESERVATION_ID)
  else inr reservationId.

(** ** src/controllers/reservation.controller.ts *)

Module ReservationController.

(** [handleError]: the [switch] on [error.message]. *)
Definition handleError (e : ServiceError) : HttpResponse :=
  let m := ERROR_MESSAGES.message e in
  if String.eqb m ERROR_MESSAGES.NOT_ENOUGH_SEATS
  then mkResponse HTTP_STATUS.CONFLICT (ErrorResponse m)
  else if String.eqb m ERROR_MESSAGES.RESERVATION_NOT_FOUND
          || String.eqb m ERROR_MESSAGES.EVENT_NOT_FOUND
  then mkResponse HTTP_STATUS.NOT_FOUND (ErrorResponse m)
  else if String.eqb m ERROR_MESSAGES.CONCURRENT_UPDATE_DETECTED
  then mkResponse HTTP_STATUS.CONFLICT (ErrorResponse m)
  else mkResponse HTTP_STATUS.INTERNAL_SERVER_ERROR
         (ErrorResponse ERROR_MESSAGES.INTERNAL_SERVER_ERROR).

(** POST /reservations *)
Definition reserveSeats (w : World) (rq : ReservationRequest.t) (s : Store)
    : HttpResponse * Store :=
  let '(r, s') :=
    ReservationService.reserveSeats w APP_CONFIG.DEFAULT_EVENT_ID
      (ReservationRequest.partnerId rq) (ReservationRequest.seats rq) s in
  match r with
  | inr reservationId =>
      (mkResponse HTTP_STATUS.CREATED
         (ReservationResponse reservationId (ReservationRequest.seats rq) confirmed),
       s')
  | inl e => (handleError e, s')
  end.

(** DELETE /reservations/:reservationId *)
Definition cancelReservation (w : World) (reservationId : string) (s : Store)
    : HttpResponse * Store :=
  let '(r, s') := ReservationService.cancelReservation w reservationId s in
  match r with
  | inr _ => (mkResponse HTTP_STATUS.NO_CONTENT NoBody, s')
  | inl e => (handleError e, s')
  end.

(** GET /reservations *)
Definition getEventSummary (w : World) (s : Store) : HttpResponse * Store :=
  let '(r, s') :=
    ReservationService.getEventSummary w APP_CONFIG.DEFAULT_EVENT_ID s in
  match r with
  | None =>
      (mkResponse HTTP_STATUS.NOT_FOUND
         (ErrorResponse ERROR_MESSAGES.EVENT_NOT_FOUND), s')
  | Some summary => (mkResponse HTTP_STATUS.OK (SummaryResponse summary), s')
  end.

(** GET /reservations/list *)
Definition getAllReservations (s : Store) : HttpResponse :=
  let rs := ReservationService.getAllReservations APP_CONFIG.DEFAULT_EVENT_ID s in
  mkResponse HTTP_STATUS.OK
    (ListResponse APP_CONFIG.DEFAULT_EVENT_ID (length rs) rs).

End ReservationController.

(** ** src/routes/reservations.ts

    The four routes: the middleware, then the controller. The parameter of
    the DELETE route is the path segment the route has matched. *)

Inductive Request : Type :=
  | POST_reservations (body : RequestBody.t)
  | DELETE_reservation (reservationId : string)
  | GET_reservations
  | GET_reservations_list.

Definition handle (w : World) (req : Request) (s : Store)
    : HttpResponse * Store :=
  match req with
  | POST_reservations body =>
      match validateReservationRequest body with
      | inl res => (res, s)
      | inr rq => ReservationController.reserveSeats w rq s
      end
  | DELETE_reservation reservationId =>
      match validateReservationId reservationId with
      | inl res => (res, s)
      | inr rid => ReservationController.cancelReservation w rid s
      end
  | GET_reservations => ReservationController.getEventSummary w s
  | GET_reservations_list => (ReservationController.getAllReservations s, s)
  end.

(** The states the server reaches from the seeded database, one request
    after the other, whatever the requests carry. *)
Inductive served : Store → Prop :=
  | served_seeded (now : Z) : served (seeded now)
  | served_handle (s : Store) (req : Request) (clk : nat → Z) (uuid : string) :
      served s → served (handle (quiet clk uuid) req s).2.

(** ** Counting reservations *)

Definition weigh (f : IReservation → Z) (m : gmap string IReservation) : Z :=
  map_fold (λ _ r acc, f r + acc) 0 m.

Definition count (P : IReservation → Prop) `{∀ r, Decision (P r)}
    (m : gmap string IReservation) : Z :=
  weigh (λ r, if decide (P r) then 1 else 0) m.

(** The reservations ever made for a pool, those of them that were
    cancelled, and those that are confirmed. *)
Definition madeFor (eventId : string) (s : Store) : Z :=
  count (λ r, event_id r = eventId) (reservations s).

Definition cancelledFor (eventId : string) (s : Store) : Z :=
  count (λ r, event_id r = eventId ∧ status r = cancelled) (reservations s).

Definition confirmedFor (eventId : string) (s : Store) : Z :=
  count (λ r, event_id r = eventId ∧ status r = confirmed) (reservations s).

(** Every reservation belongs to a stored pool. *)
Definition referential (s : Store) : Prop :=
  ∀ rid r, reservations s !! rid = Some r → is_Some (events s !! event_id r).

(** * The event repository *)

Section EventRepositoryFacts.
Import EventRepository.

Lemma matches_true seatsChange currentVersion ev :
  matches seatsChange currentVersion ev = true ↔
  version ev = currentVersion ∧ 0 ≤ available_seats ev + seatsChange.
Proof. unfold matches. rewrite andb_true_iff, Z.eqb_eq, Z.leb_le. done. Qed.


Lemma updateSeatsWithVersion_hit eventId seatsChange currentVersion now s ev :
  events s !! eventId = Some ev →
  version ev = currentVersion →
  0 ≤ available_seats ev + seatsChange →
  updateSeatsWithVersion eventId seatsChange currentVersion now s =
    (true, setEvents s (<[eventId := applyUpdate seatsChange now ev]> (events s))).
Proof.
  intros H Hv Ha. unfold updateSeatsWithVersion. rewrite H.
  by rewrite (proj2 (matches_true _ _ _) (conj Hv Ha)).
Qed.

Lemma updateSeatsWithVersion_miss eventId seatsChange currentVersion now s ev :
  events s !! eventId = Some ev →
  ¬ (version ev = currentVersion ∧ 0 ≤ available_seats ev + seatsChange) →
  updateSeatsWithVersion eventId seatsChange currentVersion now s = (false, s).
Proof.
  intros H Hn. unfold updateSeatsWithVersion. rewrite H.
  destruct (matches _ _ _) eqn:E; [|done].
  by apply matches_true in E.
Qed.

(** The three outcomes, by inversion on the result. *)
Lemma updateSeatsWithVersion_inv eventId seatsChange currentVersion now s b s' :
  updateSeatsWithVersion eventId seatsChange currentVersion now s = (b, s') →
  (b = true ∧ ∃ ev, events s !! eventId = Some ev
                  ∧ version ev = currentVersion
                  ∧ 0 ≤ available_seats ev + seatsChange
                  ∧ s' = setEvents s (<[eventId := applyUpdate seatsChange now ev]> (events s)))
  ∨ (b = false ∧ s' = s).
Proof.
  unfold updateSeatsWithVersion.
  destruct (events s !! eventId) as [ev|] eqn:E.
  - destruct (matches _ _ _) eqn:M; intros [= <- <-]; [left|right; done].
    apply matches_true in M as [? ?]. split; [done|]. by exists ev.
  - intros [= <- <-]. by right.
Qed.

Lemma setEvents_neq s eventId ev ev' :
  events s !! eventId = Some ev → ev' ≠ ev →
  setEvents s (<[eventId := ev']> (events s)) ≠ s.
Proof.
  intros H Hne Heq. apply (f_equal (λ t, events t !! eventId)) in Heq.
  simpl in Heq. rewrite lookup_insert_eq, H in Heq. congruence.
Qed.

Lemma applyUpdate_neq seatsChange now ev : applyUpdate seatsChange now ev ≠ ev.
Proof.
  intros Heq. apply (f_equal version) in Heq. simpl in Heq. lia.
Qed.

End EventRepositoryFacts.

(** * The service, branch by branch *)

Ltac run_tx :=
  unfold ReservationService.reserveSeats, ReservationService.cancelReservation,
         transaction, bind, query, update, insert_, gap, throw, ret,
         EventRepository.findById;
  cbn [inside outside fst snd negb].

Ltac tx := cbn [inside outside fst snd negb].

Section ServiceFacts.
Import ReservationService.
Variable w : World.

(** The database the conditional write of [reserveSeats] runs on. *)
Let atWrite (s : Store) : Store := env w 1 s.

Lemma reserveSeats_no_event eventId partnerId nseats s :
  events s !! eventId = None →
  reserveSeats w eventId partnerId nseats s = (inl EVENT_NOT_FOUND, s).
Proof. intros H. run_tx. by rewrite H. Qed.

Lemma reserveSeats_not_enough eventId partnerId nseats s ev :
  events s !! eventId = Some ev →
  available_seats ev < nseats →
  reserveSeats w eventId partnerId nseats s = (inl NOT_ENOUGH_SEATS, s).
Proof.
  intros H Hlt. run_tx. rewrite H. tx.
  by rewrite (proj2 (Z.ltb_lt _ _) Hlt).
Qed.

Lemma reserveSeats_conflict eventId partnerId nseats s ev :
  events s !! eventId = Some ev →
  nseats ≤ available_seats ev →
  (EventRepository.updateSeatsWithVersion
     eventId (- nseats) (version ev) (clock w 1) (atWrite s)).1 = false →
  reserveSeats w eventId partnerId nseats s
    = (inl CONCURRENT_UPDATE_DETECTED, others w 1 s).
Proof.
  intros H Hle Hupd. run_tx. rewrite H. tx.
  rewrite (proj2 (Z.ltb_ge _ _) Hle). tx.
  subst atWrite. simpl in Hupd.
  destruct (EventRepository.updateSeatsWithVersion _ _ _ _ _) as [b s2].
  simpl in Hupd. by subst b.
Qed.

Lemma reserveSeats_duplicate eventId partnerId nseats s ev s2 :
  events s !! eventId = Some ev →
  nseats ≤ available_seats ev →
  EventRepository.updateSeatsWithVersion
    eventId (- nseats) (version ev) (clock w 1) (atWrite s) = (true, s2) →
  is_Some (reservations (env w 2 s2) !! uuidv4 w) →
  reserveSeats w eventId partnerId nseats s = (inl DUPLICATE_KEY, others w 2 s).
Proof.
  intros H Hle Hupd [r0 Hdup]. run_tx. rewrite H. tx.
  rewrite (proj2 (Z.ltb_ge _ _) Hle). tx.
  subst atWrite. simpl in Hupd. rewrite Hupd. tx.
  unfold ReservationRepository.create. by rewrite Hdup.
Qed.

Lemma reserveSeats_ok eventId partnerId nseats s ev s2 :
  events s !! eventId = Some ev →
  nseats ≤ available_seats ev →
  EventRepository.updateSeatsWithVersion
    eventId (- nseats) (version ev) (clock w 1) (atWrite s) = (true, s2) →
  reservations (env w 2 s2) !! uuidv4 w = None →
  reserveSeats w eventId partnerId nseats s
    = (inr (uuidv4 w),
       env w 3 (setReservations (env w 2 s2)
                  (<[uuidv4 w := mkReservation eventId partnerId nseats
                                   confirmed (clock w 2) None]>
                     (reservations (env w 2 s2))))).
Proof.
  intros H Hle Hupd Hfresh. run_tx. rewrite H. tx.
  rewrite (proj2 (Z.ltb_ge _ _) Hle). tx.
  subst atWrite. simpl in Hupd. rewrite Hupd. tx.
  unfold ReservationRepository.create. by rewrite Hfresh.
Qed.

(** The database the conditional write of [cancelReservation] runs on. *)
Let atRefund (reservationId : string) (s : Store) : Store :=
  env w 3 (ReservationRepository.cancel reservationId (clock w 2)
             (env w 2 (env w 1 s))).2.

Lemma cancelReservation_no_reservation reservationId s :
  ReservationRepository.findConfirmedById reservationId s = None →
  cancelReservation w reservationId s = (inl RESERVATION_NOT_FOUND, s).
Proof. intros H. run_tx. by rewrite H. Qed.

Lemma cancelReservation_no_event reservationId s r :
  ReservationRepository.findConfirmedById reservationId s = Some r →
  events (env w 1 s) !! event_id r = None →
  cancelReservation w reservationId s = (inl EVENT_NOT_FOUND, others w 1 s).
Proof. intros H He. run_tx. rewrite H. tx. by rewrite He. Qed.

Lemma cancelReservation_conflict reservationId s r ev :
  ReservationRepository.findConfirmedById reservationId s = Some r →
  events (env w 1 s) !! event_id r = Some ev →
  (EventRepository.updateSeatsWithVersion
     (event_id r) (seats r) (version ev) (clock w 3) (atRefund reservationId s)).1
    = false →
  cancelReservation w reservationId s
    = (inl CONCURRENT_UPDATE_DETECTED, others w 3 s).
Proof.
  intros H He Hupd. run_tx. rewrite H. tx. rewrite He. tx.
  subst atRefund. simpl in Hupd.
  destruct (ReservationRepository.cancel _ _ _) as [b s3]. tx. simpl in Hupd.
  destruct (EventRepository.updateSeatsWithVersion _ _ _ _ _) as [b' s4].
  simpl in Hupd. by subst b'.
Qed.

Lemma cancelReservation_ok reservationId s r ev s4 :
  ReservationRepository.findConfirmedById reservationId s = Some r →
  events (env w 1 s) !! event_id r = Some ev →
  EventRepository.updateSeatsWithVersion
    (event_id r) (seats r) (version ev) (clock w 3) (atRefund reservationId s)
    = (true, s4) →
  cancelReservation w reservationId s = (inr (), env w 4 s4).
Proof.
  intros H He Hupd. run_tx. rewrite H. tx. rewrite He. tx.
  subst atRefund. simpl in Hupd.
  destruct (ReservationRepository.cancel _ _ _) as [b s3]. tx. simpl in Hupd.
  by rewrite Hupd.
Qed.

(** Every failure of [reserveSeats] leaves what the other clients wrote,
    and nothing else. *)
Lemma reserveSeats_failure eventId partnerId nseats s e s' :
  reserveSeats w eventId partnerId nseats s = (inl e, s') →
  ∃ k, (k ≤ 2)%nat ∧ s' = others w k s.
Proof.
  intros Hr.
  destruct (events s !! eventId) as [ev|] eqn:He.
  - destruct (decide (available_seats ev < nseats)) as [Hlt|Hge].
    + rewrite (reserveSeats_not_enough _ _ _ _ _ He Hlt) in Hr.
      injection Hr as _ <-. exists 0%nat. split; [lia|done].
    + apply Z.nlt_ge in Hge.
      destruct (EventRepository.updateSeatsWithVersion
                  eventId (- nseats) (version ev) (clock w 1) (atWrite s))
        as [[|] s2] eqn:Hupd.
      * destruct (reservations (env w 2 s2) !! uuidv4 w) as [r0|] eqn:Hf.
        -- rewrite (reserveSeats_duplicate _ _ _ _ _ _ He Hge Hupd) in Hr by eauto.
           injection Hr as _ <-. exists 2%nat. split; [lia|done].
        -- by rewrite (reserveSeats_ok _ _ _ _ _ _ He Hge Hupd Hf) in Hr.
      * rewrite (reserveSeats_conflict _ _ _ _ _ He Hge) in Hr
          by (by rewrite Hupd).
        injection Hr as _ <-. exists 1%nat. split; [lia|done].
  - rewrite (reserveSeats_no_event _ _ _ _ He) in Hr.
    injection Hr as _ <-. exists 0%nat. split; [lia|done].
Qed.

Lemma cancelReservation_failure reservationId s e s' :
  cancelReservation w reservationId s = (inl e, s') →
  ∃ k, (k ≤ 3)%nat ∧ s' = others w k s.
Proof.
  intros Hr.
  destruct (ReservationRepository.findConfirmedById reservationId s)
    as [r|] eqn:Hf.
  - destruct (events (env w 1 s) !! event_id r) as [ev|] eqn:He.
    + destruct (EventRepository.updateSeatsWithVersion
                  (event_id r) (seats r) (version ev) (clock w 3)
                  (atRefund reservationId s)) as [[|] s4] eqn:Hupd.
      * by rewrite (cancelReservation_ok _ _ _ _ _ Hf He Hupd) in Hr.
      * rewrite (cancelReservation_conflict _ _ _ _ Hf He) in Hr
          by (by rewrite Hupd).
        injection Hr as _ <-. exists 3%nat. split; [lia|done].
    + rewrite (cancelReservation_no_event _ _ _ Hf He) in Hr.
      injection Hr as _ <-. exists 1%nat. split; [lia|done].
  - rewrite (cancelReservation_no_reservation _ _ Hf) in Hr.
    injection Hr as _ <-. exists 0%nat. split; [lia|done].
Qed.

End ServiceFacts.

Lemma others_quiet clk uuid k s : others (quiet clk uuid) k s = s.
Proof. induction k as [|k IH]; simpl; [done|]. by rewrite IH. Qed.

(** * The conditional adjust *)

Section ConditionalAdjust.
Import EventRepository.

(** C2, as stated, fails on the full seeded pool: an adjust by +5 at the
    stored version returns [true] and leaves 505 seats available out of 500,
    where the adjust of the specification refuses the write. *)
Lemma updateSeatsWithVersion_over_capacity :
  let s := seeded 0 in
  let r := updateSeatsWithVersion Scenario.pool 5 0 1 s in
  r.1 = true
  ∧ events r.2 !! Scenario.pool = Some (mkEvent "Node.js Meet-up" 500 505 1 0 1)
  ∧ ¬ (505 ≤ 500)
  ∧ conditionalAdjust Scenario.pool 5 0 1 s = (false, s)
  ∧ r ≠ conditionalAdjust Scenario.pool 5 0 1 s.
Proof.
  cbv zeta. split; [reflexivity|]. split; [reflexivity|]. split; [lia|].
  split; [reflexivity|].
  intros Heq. apply (f_equal fst) in Heq. vm_compute in Heq. discriminate.
Qed.

(** C2, amended: for every delta and every expected version, the adjust
    writes (available += delta, version += 1, updated_at := now, nothing
    else) exactly when the pool is stored, its version is the expected one
    and available + delta ≥ 0; it returns [true] iff it wrote, and on
    [false] the database is the one it was given. No upper bound is
    checked. *)
Theorem updateSeatsWithVersion_guards
    (eventId : string) (seatsChange currentVersion now : Z) (s : Store) :
  let r := updateSeatsWithVersion eventId seatsChange currentVersion now s in
  (r.1 = true ↔
     ∃ ev, events s !! eventId = Some ev
           ∧ version ev = currentVersion
           ∧ 0 ≤ available_seats ev + seatsChange)
  ∧ (∀ ev, r.1 = true → events s !! eventId = Some ev →
       r.2 = setEvents s
               (<[eventId := mkEvent (name ev) (total_seats ev)
                               (available_seats ev + seatsChange)
                               (version ev + 1) (event_created_at ev) now]>
                  (events s)))
  ∧ (r.1 = true ↔ r.2 ≠ s)
  ∧ (r.1 = false → r.2 = s).
Proof.
  cbv zeta.
  destruct (updateSeatsWithVersion eventId seatsChange currentVersion now s)
    as [b s'] eqn:E.
  destruct (updateSeatsWithVersion_inv _ _ _ _ _ _ _ E)
    as [(-> & ev & He & Hv & Ha & ->)|[-> ->]]; simpl.
  - split; [split; [intros _; by exists ev|done]|].
    split; [intros ev' _ He'; by simplify_eq|].
    split; [|done].
    split; [intros _|done].
    apply (setEvents_neq _ _ ev); [done|apply applyUpdate_neq].
  - split.
    { split; [done|]. intros (ev & He & Hv & Ha).
      rewrite (updateSeatsWithVersion_hit _ _ _ now _ _ He Hv Ha) in E.
      by injection E. }
    split; [done|]. split; [|done]. split; [done|]. intros Hn. by destruct Hn.
Qed.

(** The three outcomes of the amended C2 on the seeded pool: a write at the
    stored version, a refusal at a stale version, a refusal below zero. *)
Lemma updateSeatsWithVersion_guards_seeded :
  (updateSeatsWithVersion Scenario.pool (-5) 0 1 (seeded 0)).1 = true
  ∧ updateSeatsWithVersion Scenario.pool (-5) 3 1 (seeded 0) = (false, seeded 0)
  ∧ updateSeatsWithVersion Scenario.pool (-501) 0 1 (seeded 0) = (false, seeded 0).
Proof.
  pose proof (updateSeatsWithVersion_guards Scenario.pool (-5) 0 1 (seeded 0))
    as (Hwrite & _).
  pose proof (updateSeatsWithVersion_guards Scenario.pool (-5) 3 1 (seeded 0))
    as (_ & _ & _ & Hstale).
  pose proof (updateSeatsWithVersion_guards Scenario.pool (-501) 0 1 (seeded 0))
    as (_ & _ & _ & Hbelow).
  split.
  - apply Hwrite. exists (mkEvent "Node.js Meet-up" 500 500 0 0 0).
    split; [reflexivity|]. split; [reflexivity|]. simpl. lia.
  - split; (apply injective_projections; [reflexivity|]).
    + apply Hstale. reflexivity.
    + apply Hbelow. reflexivity.
Defined.

(** C6: a conditional adjust that succeeds leaves the pool with its version
    incremented by exactly 1; one that presents a version other than the
    stored one returns [false] and leaves the database, hence the pool
    record, as it was. *)
Theorem updateSeatsWithVersion_version
    (eventId : string) (seatsChange currentVersion now : Z) (s : Store)
    (ev : IEvent) :
  events s !! eventId = Some ev →
  let r := updateSeatsWithVersion eventId seatsChange currentVersion now s in
  (r.1 = true →
     ∃ ev', events r.2 !! eventId = Some ev' ∧ version ev' = version ev + 1)
  ∧ (version ev ≠ currentVersion →
     r = (false, s) ∧ events r.2 !! eventId = Some ev).
Proof.
  intros He. cbv zeta. split.
  - destruct (updateSeatsWithVersion eventId seatsChange currentVersion now s)
      as [b s'] eqn:E.
    apply updateSeatsWithVersion_inv in E
      as [(-> & ev0 & He0 & Hv & Ha & ->)|[-> ->]]; [|done].
    intros _. simplify_eq. eexists. simpl. rewrite lookup_insert_eq.
    split; [done|]. done.
  - intros Hne.
    rewrite (updateSeatsWithVersion_miss _ _ _ _ _ _ He) by (by intros [? _]).
    done.
Qed.

Lemma updateSeatsWithVersion_version_seeded :
  events (seeded 0) !! Scenario.pool = Some (mkEvent "Node.js Meet-up" 500 500 0 0 0)
  ∧ (∃ ev', events (updateSeatsWithVersion Scenario.pool (-5) 0 1 (seeded 0)).2
              !! Scenario.pool = Some ev' ∧ version ev' = 0 + 1)
  ∧ updateSeatsWithVersion Scenario.pool (-5) 7 1 (seeded 0) = (false, seeded 0).
Proof.
  split; [reflexivity|].
  pose proof (updateSeatsWithVersion_version Scenario.pool (-5) 0 1 (seeded 0)
                (mkEvent "Node.js Meet-up" 500 500 0 0 0) eq_refl) as [Hok _].
  pose proof (updateSeatsWithVersion_version Scenario.pool (-5) 7 1 (seeded 0)
                (mkEvent "Node.js Meet-up" 500 500 0 0 0) eq_refl) as [_ Hstale].
  split.
  - apply Hok. reflexivity.
  - apply Hstale. simpl. lia.
Defined.

End ConditionalAdjust.

(** * reserve and cancel *)

Section Engine.
Import ReservationService ReservationRepository EventRepository.



(** C8: [findConfirmedById] returns a reservation exactly when one is stored
    under that id with status confirmed; an id that was never created and an
    id whose reservation is cancelled both give the not-found result, and
    [cancelReservation] then fails with the same RESERVATION_NOT_FOUND and
    leaves the database as it was. *)
Theorem findConfirmedById_not_found (reservationId : string) (s : Store) :
  (∀ r, findConfirmedById reservationId s = Some r ↔
        reservations s !! reservationId = Some r ∧ status r = confirmed)
  ∧ (reservations s !! reservationId = None
     ∨ (∃ r, reservations s !! reservationId = Some r ∧ status r = cancelled) →
     findConfirmedById reservationId s = None
     ∧ ∀ w, cancelReservation w reservationId s = (inl RESERVATION_NOT_FOUND, s)).
Proof.
  split.
  - intros r. unfold findConfirmedById.
    destruct (reservations s !! reservationId) as [r0|].
    + destruct (decide (status r0 = confirmed)) as [Hc|Hc].
      * split; [by intros [= <-]|by intros [[= <-] _]].
      * split; [done|]. intros [[= <-] ?]. done.
    + split; [done|]. by intros [? _].
  - intros Hcase.
    assert (findConfirmedById reservationId s = None) as Hnone.
    { unfold findConfirmedById. destruct Hcase as [->|(r & -> & Hst)]; [done|].
      destruct (decide (status r = confirmed)); [congruence|done]. }
    split; [done|]. intros w. by apply cancelReservation_no_reservation.
Qed.

Lemma findConfirmedById_not_found_run :
  findConfirmedById "r1" Scenario.oneReservation
    = Some (mkReservation Scenario.pool "p1" 5 confirmed 7 None)
  ∧ cancelReservation (quiet (λ _, 11) "") "never-created" Scenario.oneCancelled
    = (inl RESERVATION_NOT_FOUND, Scenario.oneCancelled)
  ∧ cancelReservation (quiet (λ _, 11) "") "r1" Scenario.oneCancelled
    = (inl RESERVATION_NOT_FOUND, Scenario.oneCancelled).
Proof.
  split.
  - apply (findConfirmedById_not_found "r1" Scenario.oneReservation).
    split; reflexivity.
  - split.
    + apply (findConfirmedById_not_found "never-created" Scenario.oneCancelled).
      left. reflexivity.
    + apply (findConfirmedById_not_found "r1" Scenario.oneCancelled).
      right. exists (mkReservation Scenario.pool "p1" 5 cancelled 7 (Some 9)).
      split; reflexivity.
Defined.


(** The same in general: whatever [cancel] returns, the outcome of
    [cancelReservation] is decided by the conditional adjust alone. *)
Lemma cancelReservation_ignores_cancel w reservationId s r ev s4 :
  findConfirmedById reservationId s = Some r →
  events (env w 1 s) !! event_id r = Some ev →
  (cancel reservationId (clock w 2) (env w 2 (env w 1 s))).1 = false →
  updateSeatsWithVersion (event_id r) (seats r) (version ev) (clock w 3)
    (env w 3 (cancel reservationId (clock w 2) (env w 2 (env w 1 s))).2)
    = (true, s4) →
  cancelReservation w reservationId s = (inr (), env w 4 s4).
Proof. intros Hf He _ Hupd. by apply (cancelReservation_ok w _ _ r ev). Qed.

End Engine.

Section Reserve.
Import ReservationService ReservationRepository EventRepository.



(** C5: a [reserveSeats] or [cancelReservation] that fails returns one
    error, and the database it leaves holds none of its writes: it is the
    database the call started from, changed by the other clients alone (the
    first k gaps); when no other client runs, it is exactly the database the
    call started from, pool records and reservations alike. *)
Theorem failure_rolls_back :
  (∀ w eventId partnerId nseats s e s',
     reserveSeats w eventId partnerId nseats s = (inl e, s') →
     ∃ k, (k ≤ 2)%nat ∧ s' = others w k s)
  ∧ (∀ w reservationId s e s',
       cancelReservation w reservationId s = (inl e, s') →
       ∃ k, (k ≤ 3)%nat ∧ s' = others w k s)
  ∧ (∀ clk uuid eventId partnerId nseats s e s',
       reserveSeats (quiet clk uuid) eventId partnerId nseats s = (inl e, s') →
       s' = s)
  ∧ (∀ clk uuid reservationId s e s',
       cancelReservation (quiet clk uuid) reservationId s = (inl e, s') →
       s' = s).
Proof.
  split; [|split; [|split]].
  - intros w eventId partnerId nseats s e s'. apply reserveSeats_failure.
  - intros w reservationId s e s'. apply cancelReservation_failure.
  - intros clk uuid eventId partnerId nseats s e s' Hr.
    apply reserveSeats_failure in Hr as (k & _ & ->). apply others_quiet.
  - intros clk uuid reservationId s e s' Hr.
    apply cancelReservation_failure in Hr as (k & _ & ->). apply others_quiet.
Qed.

(** Two failures that come after a write of the call. A reserve whose
    generated id is taken fails on the insertion, after the 2 seats were
    taken from the pool: the database is unchanged. A cancel whose refund
    loses against a reserve of another client fails after "r1" was marked
    cancelled: "r1" is confirmed in the database it leaves, which is the one
    the other client produced. *)
Lemma failure_rolls_back_run :
  reserveSeats (quiet (λ _, 8) "r1") Scenario.pool "p3" 2 Scenario.oneReservation
    = (inl DUPLICATE_KEY, Scenario.oneReservation)
  ∧ cancelReservation (Scenario.duringGap 3 Scenario.otherReserve 8 "")
      "r1" Scenario.oneReservation
    = (inl CONCURRENT_UPDATE_DETECTED, Scenario.otherReserve Scenario.oneReservation).
Proof.
  destruct failure_rolls_back as (_ & Hcancel & Hreserve & _).
  split.
  - apply injective_projections; [reflexivity|].
    apply (Hreserve (λ _, 8) "r1" Scenario.pool "p3" 2 Scenario.oneReservation
             DUPLICATE_KEY).
    reflexivity.
  - apply injective_projections; [reflexivity|].
    destruct (Hcancel (Scenario.duringGap 3 Scenario.otherReserve 8 "")
                "r1" Scenario.oneReservation CONCURRENT_UPDATE_DETECTED
                (Scenario.otherReserve Scenario.oneReservation) eq_refl)
      as (k & Hk & Heq).
    reflexivity.
Defined.

End Reserve.

(** * Calls that nobody interleaves with *)

Section Quiet.
Import ReservationService ReservationRepository EventRepository.
Variables (clk : nat → Z) (uuid : string).

Lemma reserveSeats_quiet_ok eventId partnerId nseats s ev :
  events s !! eventId = Some ev →
  nseats ≤ available_seats ev →
  0 ≤ available_seats ev - nseats →
  reservations s !! uuid = None →
  reserveSeats (quiet clk uuid) eventId partnerId nseats s
    = (inr uuid, reservedStore (quiet clk uuid) eventId partnerId nseats ev s).
Proof.
  intros He Hle Hnn Hfresh.
  rewrite (reserveSeats_ok (quiet clk uuid) _ _ _ _ ev
             (setEvents s (<[eventId := applyUpdate (- nseats) (clk 1) ev]>
                             (events s))) He Hle); [done| |done].
  apply updateSeatsWithVersion_hit; [done|done|lia].
Qed.

Lemma reserveSeats_quiet_inv eventId partnerId nseats s r s' :
  reserveSeats (quiet clk uuid) eventId partnerId nseats s = (r, s') →
  (∃ e, r = inl e ∧ s' = s)
  ∨ (∃ ev, events s !! eventId = Some ev
           ∧ nseats ≤ available_seats ev
           ∧ 0 ≤ available_seats ev - nseats
           ∧ reservations s !! uuid = None
           ∧ r = inr uuid
           ∧ s' = reservedStore (quiet clk uuid) eventId partnerId nseats ev s).
Proof.
  intros Hr. destruct r as [e|rid].
  { left. exists e. split; [done|].
    apply reserveSeats_failure in Hr as (k & _ & ->). apply others_quiet. }
  right.
  destruct (events s !! eventId) as [ev|] eqn:He;
    [|by rewrite (reserveSeats_no_event _ _ _ _ _ He) in Hr].
  destruct (decide (available_seats ev < nseats)) as [Hlt|Hge];
    [by rewrite (reserveSeats_not_enough _ _ _ _ _ _ He Hlt) in Hr|].
  apply Z.nlt_ge in Hge.
  destruct (updateSeatsWithVersion eventId (- nseats) (version ev) (clk 1) s)
    as [b s2] eqn:Hupd.
  destruct (updateSeatsWithVersion_inv _ _ _ _ _ _ _ Hupd)
    as [(-> & ev0 & He0 & _ & Ha & ->)|[-> ->]].
  - assert (ev0 = ev) as -> by congruence.
    destruct (reservations s !! uuid) as [r0|] eqn:Hf.
    + rewrite (reserveSeats_duplicate (quiet clk uuid) _ _ _ _ _ _ He Hge Hupd)
        in Hr; [done|]. simpl. by exists r0.
    + rewrite (reserveSeats_ok (quiet clk uuid) _ _ _ _ _ _ He Hge Hupd) in Hr
        by done.
      injection Hr as <- <-. exists ev.
      repeat (split; [done || lia|]). done.
  - rewrite (reserveSeats_conflict (quiet clk uuid) _ _ _ _ _ He Hge) in Hr;
      [done|]. simpl. by rewrite Hupd.
Qed.

Lemma cancel_events reservationId now s :
  events (cancel reservationId now s).2 = events s.
Proof. unfold cancel. by destruct (reservations s !! reservationId). Qed.

Lemma findConfirmedById_Some reservationId s r :
  findConfirmedById reservationId s = Some r →
  reservations s !! reservationId = Some r ∧ status r = confirmed.
Proof.
  unfold findConfirmedById.
  destruct (reservations s !! reservationId) as [r0|]; [|done].
  destruct (decide (status r0 = confirmed)); [|done].
  by intros [= <-].
Qed.

Lemma cancelReservation_quiet_ok reservationId s r ev :
  findConfirmedById reservationId s = Some r →
  events s !! event_id r = Some ev →
  0 ≤ available_seats ev + seats r →
  cancelReservation (quiet clk uuid) reservationId s
    = (inr (), cancelledStore (quiet clk uuid) reservationId r ev s).
Proof.
  intros Hf He Hnn.
  apply findConfirmedById_Some in Hf as Hl. destruct Hl as [Hl _].
  rewrite (cancelReservation_ok (quiet clk uuid) _ _ r ev
             (cancelledStore (quiet clk uuid) reservationId r ev s) Hf He);
    [done|].
  simpl. erewrite updateSeatsWithVersion_hit;
    [|by rewrite cancel_events|done|done].
  unfold cancel, cancelledStore. by rewrite Hl.
Qed.

Lemma cancelReservation_quiet_inv reservationId s res s' :
  cancelReservation (quiet clk uuid) reservationId s = (res, s') →
  (∃ e, res = inl e ∧ s' = s)
  ∨ (∃ r ev, reservations s !! reservationId = Some r
             ∧ status r = confirmed
             ∧ events s !! event_id r = Some ev
             ∧ 0 ≤ available_seats ev + seats r
             ∧ s' = cancelledStore (quiet clk uuid) reservationId r ev s).
Proof.
  intros Hr. destruct res as [e|[]].
  { left. exists e. split; [done|].
    apply cancelReservation_failure in Hr as (k & _ & ->). apply others_quiet. }
  right.
  destruct (findConfirmedById reservationId s) as [r|] eqn:Hf;
    [|by rewrite (cancelReservation_no_reservation _ _ _ Hf) in Hr].
  destruct (events s !! event_id r) as [ev|] eqn:He;
    [|by rewrite (cancelReservation_no_event (quiet clk uuid) _ _ _ Hf He) in Hr].
  destruct (decide (0 ≤ available_seats ev + seats r)) as [Hnn|Hneg].
  - rewrite (cancelReservation_quiet_ok _ _ _ _ Hf He Hnn) in Hr.
    injection Hr as <-. apply findConfirmedById_Some in Hf as [? ?].
    by exists r, ev.
  - rewrite (cancelReservation_conflict (quiet clk uuid) _ _ _ _ Hf He) in Hr;
      [done|].
    simpl. erewrite updateSeatsWithVersion_miss;
      [done|by rewrite cancel_events|]. by intros [_ ?].
Qed.

End Quiet.

Section RoundTrip.
Import ReservationService ReservationRepository EventRepository.

(** C7: when a reserve of [nseats] ≥ 1 seats succeeds and returns an id, the
    cancel of that id that follows succeeds and the pool has again exactly
    the seats available that it had before the reserve; a second cancel of
    the id fails with RESERVATION_NOT_FOUND. *)
Theorem reserve_cancel_round_trip
    (clk1 clk2 clk3 : nat → Z) (uuid1 uuid2 uuid3 : string)
    (eventId partnerId : string) (nseats : Z) (s : Store) (ev : IEvent)
    (reservationId : string) (s1 : Store) :
  1 ≤ nseats →
  events s !! eventId = Some ev →
  reserveSeats (quiet clk1 uuid1) eventId partnerId nseats s
    = (inr reservationId, s1) →
  ∃ s2 ev2,
    cancelReservation (quiet clk2 uuid2) reservationId s1 = (inr (), s2)
    ∧ events s2 !! eventId = Some ev2
    ∧ available_seats ev2 = available_seats ev
    ∧ cancelReservation (quiet clk3 uuid3) reservationId s2
      = (inl RESERVATION_NOT_FOUND, s2).
Proof.
  intros Hpos He Hr.
  apply reserveSeats_quiet_inv in Hr
    as [(e & [=] & _)|(ev' & He' & Hle & Hnn & Hfresh & [= ->] & ->)].
  assert (ev' = ev) as -> by congruence.
  set (r := mkReservation eventId partnerId nseats confirmed (clk1 2%nat) None).
  set (ev1 := applyUpdate (- nseats) (clk1 1%nat) ev).
  set (s1 := reservedStore (quiet clk1 uuid1) eventId partnerId nseats ev s).
  assert (findConfirmedById uuid1 s1 = Some r) as Hf.
  { unfold findConfirmedById, s1, reservedStore. simpl.
    by rewrite lookup_insert_eq. }
  assert (events s1 !! event_id r = Some ev1) as He1.
  { unfold s1, reservedStore. simpl. by rewrite lookup_insert_eq. }
  assert (0 ≤ available_seats ev1 + seats r) as Hback by (simpl; lia).
  exists (cancelledStore (quiet clk2 uuid2) uuid1 r ev1 s1),
         (applyUpdate (seats r) (clk2 3%nat) ev1).
  split; [by apply cancelReservation_quiet_ok|].
  split; [unfold cancelledStore; simpl; by rewrite lookup_insert_eq|].
  split; [simpl; lia|].
  apply cancelReservation_no_reservation.
  unfold findConfirmedById, cancelledStore. simpl.
  by rewrite lookup_insert_eq.
Qed.

Lemma reserve_cancel_round_trip_run :
  ∃ s2 ev2,
    cancelReservation (quiet (λ _, 9) "") "r1" Scenario.oneReservation = (inr (), s2)
    ∧ events s2 !! Scenario.pool = Some ev2
    ∧ available_seats ev2 = 500
    ∧ cancelReservation (quiet (λ _, 11) "") "r1" s2
      = (inl RESERVATION_NOT_FOUND, s2).
Proof.
  apply (reserve_cancel_round_trip (λ _, 7) (λ _, 9) (λ _, 11) "r1" "" ""
           Scenario.pool "p1" 5 (seeded 0)
           (mkEvent "Node.js Meet-up" 500 500 0 0 0) "r1" Scenario.oneReservation);
    [lia|reflexivity|reflexivity].
Defined.

End RoundTrip.

(** * The listing *)

Section Listing.
Import ReservationService.

Global Instance newestFirst_total : Total newestFirst.
Proof. intros x y. unfold newestFirst. lia. Qed.

Global Instance newestFirst_trans : Transitive newestFirst.
Proof. intros x y z. unfold newestFirst. lia. Qed.

Lemma NoDup_fmap_filter {A B} (f : A → B) (P : A → Prop)
    `{∀ x, Decision (P x)} (l : list A) :
  NoDup (f <$> l) → NoDup (f <$> filter P l).
Proof.
  induction l as [|x l IH]; [done|].
  rewrite fmap_cons, NoDup_cons. intros [Hx Hl].
  rewrite filter_cons. destruct (decide (P x)); [|by apply IH].
  rewrite fmap_cons, NoDup_cons. split; [|by apply IH].
  intros (y & Hy & Hin)%list_elem_of_fmap.
  apply list_elem_of_filter in Hin as [_ Hin].
  apply Hx, list_elem_of_fmap. by exists y.
Qed.

(** C9: the listing of a pool holds the reservations of that pool, all of
    them and no other, each once, newest first (no entry was created before
    an entry that comes after it); the call leaves the database as it
    was. *)
Theorem getAllReservations_newest_first
    (w : World) (eventId : string) (s : Store) :
  let l := getAllReservations eventId s in
  (∀ v, v ∈ l ↔
        ∃ rid r, reservations s !! rid = Some r
                 ∧ event_id r = eventId
                 ∧ v = toView (rid, r))
  ∧ NoDup (ReservationView.reservationId <$> l)
  ∧ StronglySorted newerOrSame l
  ∧ exec w (ListAll eventId) s = (Listing l, s).
Proof.
  cbv zeta. unfold getAllReservations.
  set (mine := filter (λ kr : string * IReservation, event_id kr.2 = eventId)
                      (map_to_list (reservations s))).
  split; [|split; [|split]].
  - intros v. rewrite list_elem_of_fmap. split.
    + intros ([rid r] & -> & Hin).
      rewrite merge_sort_Permutation in Hin.
      apply list_elem_of_filter in Hin as [Hev Hin].
      apply elem_of_map_to_list in Hin. by exists rid, r.
    + intros (rid & r & Hl & Hev & ->). exists (rid, r). split; [done|].
      rewrite merge_sort_Permutation.
      apply list_elem_of_filter. split; [done|]. by apply elem_of_map_to_list.
  - rewrite <- list_fmap_compose.
    rewrite (merge_sort_Permutation newestFirst mine).
    apply (NoDup_fmap_filter fst). apply NoDup_fst_map_to_list.
  - apply (StronglySorted_fmap toView newestFirst newerOrSame).
    + by intros x y.
    + apply StronglySorted_merge_sort; apply _.
  - done.
Qed.

(** C9 on two reservations: "r2", created at 8, comes before "r1", created
    at 7. *)
Lemma getAllReservations_two :
  getAllReservations Scenario.pool Scenario.twoReservations
  = [ ReservationView.mk "r2" "p2" 3 confirmed 8;
      ReservationView.mk "r1" "p1" 5 confirmed 7 ].
Proof. reflexivity. Qed.

End Listing.

(** * The invariant of the pool *)

Section Invariant.
Import ReservationService ReservationRepository EventRepository.

Lemma unitsOf_empty eventId : unitsOf eventId ∅ = 0.
Proof. unfold unitsOf. by rewrite map_fold_empty. Qed.

Lemma unitsOf_insert_fresh eventId m k r :
  m !! k = None →
  unitsOf eventId (<[k := r]> m) = contribution eventId r + unitsOf eventId m.
Proof.
  intros Hk. unfold unitsOf.
  rewrite map_fold_insert_L; [done| |done].
  intros. lia.
Qed.

Lemma unitsOf_delete eventId m k r :
  m !! k = Some r →
  unitsOf eventId m = contribution eventId r + unitsOf eventId (delete k m).
Proof.
  intros Hk. unfold unitsOf.
  rewrite (map_fold_delete_L _ _ k r m); [done| |done].
  intros. lia.
Qed.

Lemma unitsOf_update eventId m k r r' :
  m !! k = Some r →
  unitsOf eventId (<[k := r']> m)
    = contribution eventId r' - contribution eventId r + unitsOf eventId m.
Proof.
  intros Hk. rewrite <- insert_delete_eq.
  rewrite unitsOf_insert_fresh by apply lookup_delete_eq.
  rewrite (unitsOf_delete eventId m k r Hk). lia.
Qed.

Lemma unitsOf_nonneg eventId m :
  (∀ k r, m !! k = Some r → 1 ≤ seats r) → 0 ≤ unitsOf eventId m.
Proof.
  induction m as [|k r m Hk IH] using map_ind.
  - intros _. by rewrite unitsOf_empty.
  - intros Hall. rewrite unitsOf_insert_fresh by done.
    assert (0 ≤ unitsOf eventId m) as Hm.
    { apply IH. intros k' r' Hl. apply (Hall k' r').
      rewrite lookup_insert_ne; [done|]. intros ->. congruence. }
    assert (1 ≤ seats r) as Hr by (apply (Hall k r), lookup_insert_eq).
    unfold contribution. destruct (decide _); lia.
Qed.

Lemma contribution_markCancelled eventId now r :
  contribution eventId (markCancelled now r) = 0.
Proof.
  unfold contribution. destruct (decide _) as [[_ Hst]|]; [|done].
  simpl in Hst. discriminate.
Qed.

Lemma seeded_eq now :
  seeded now
  = mkStore (<["node-meetup-2025" := mkEvent "Node.js Meet-up" 500 500 0 now now]> ∅)
            ∅.
Proof.
  unfold seeded, seedData, emptyStore. simpl. rewrite lookup_empty.
  unfold EventRepository.create. simpl. by rewrite lookup_empty.
Qed.

Lemma consistent_seeded now : consistent (seeded now).
Proof.
  rewrite seeded_eq. split; simpl.
  - intros rid r Hl. by rewrite lookup_empty in Hl.
  - intros eid ev Hl. unfold confirmedUnits. simpl. rewrite unitsOf_empty.
    apply lookup_insert_Some in Hl as [[_ <-]|[_ Hl]]; [simpl; lia|].
    by rewrite lookup_empty in Hl.
Qed.

Lemma consistent_reservedStore w eventId partnerId nseats ev s :
  consistent s →
  events s !! eventId = Some ev →
  1 ≤ nseats →
  0 ≤ available_seats ev - nseats →
  reservations s !! uuidv4 w = None →
  consistent (reservedStore w eventId partnerId nseats ev s).
Proof.
  intros [Hseats Hpools] He Hpos Hnn Hfresh. split.
  - intros rid r. unfold reservedStore. simpl.
    intros [[_ <-]|[_ Hl]]%lookup_insert_Some; [done|by apply (Hseats rid)].
  - intros eid ev'. unfold reservedStore, confirmedUnits. simpl.
    rewrite unitsOf_insert_fresh by done.
    unfold contribution at 1. simpl.
    intros [[<- <-]|[Hne Hl]]%lookup_insert_Some.
    + destruct (Hpools _ _ He) as [H0 Hsum]. unfold confirmedUnits in Hsum.
      rewrite decide_True by done. simpl. lia.
    + destruct (Hpools _ _ Hl) as [H0 Hsum]. unfold confirmedUnits in Hsum.
      rewrite decide_False by (by intros [? _]). lia.
Qed.

Lemma consistent_cancelledStore w reservationId r ev s :
  consistent s →
  reservations s !! reservationId = Some r →
  status r = confirmed →
  events s !! event_id r = Some ev →
  consistent (cancelledStore w reservationId r ev s).
Proof.
  intros [Hseats Hpools] Hl Hst He. split.
  - intros rid r'. unfold cancelledStore. simpl.
    intros [[_ <-]|[_ Hl']]%lookup_insert_Some; [|by apply (Hseats rid)].
    simpl. by apply (Hseats reservationId).
  - intros eid ev'. unfold cancelledStore, confirmedUnits. simpl.
    rewrite (unitsOf_update eid _ _ r) by done.
    rewrite contribution_markCancelled.
    pose proof (Hseats _ _ Hl) as Hpos.
    unfold contribution.
    intros [[<- <-]|[Hne Hl']]%lookup_insert_Some.
    + destruct (Hpools _ _ He) as [H0 Hsum]. unfold confirmedUnits in Hsum.
      rewrite decide_True by done. simpl. lia.
    + destruct (Hpools _ _ Hl') as [H0 Hsum]. unfold confirmedUnits in Hsum.
      rewrite decide_False by (by intros [? _]). lia.
Qed.

Lemma consistent_exec clk uuid c s :
  consistent s → admissible c → consistent (exec (quiet clk uuid) c s).2.
Proof.
  intros Hs Hadm. destruct c as [eventId partnerId nseats|rid|eventId|eventId];
    simpl.
  - destruct (reserveSeats (quiet clk uuid) eventId partnerId nseats s)
      as [r s'] eqn:Hr. simpl.
    apply reserveSeats_quiet_inv in Hr
      as [(e & -> & ->)|(ev & He & Hle & Hnn & Hfresh & -> & ->)]; [done|].
    by apply consistent_reservedStore.
  - destruct (cancelReservation (quiet clk uuid) rid s) as [r s'] eqn:Hr. simpl.
    apply cancelReservation_quiet_inv in Hr
      as [(e & -> & ->)|(r0 & ev & Hl & Hst & He & Hnn & ->)]; [done|].
    by apply consistent_cancelledStore.
  - unfold getEventSummary.
    by destruct (findById eventId s).
  - done.
Qed.

Lemma reachable_consistent s : reachable s → consistent s.
Proof.
  induction 1 as [now|s c clk uuid _ IH Hadm].
  - apply consistent_seeded.
  - by apply consistent_exec.
Qed.

(** C1: in every state that the engine reaches from the seeded database by
    a sequence of its calls (reserve with seats ≥ 1, cancel, summarize,
    list), the pool satisfies 0 ≤ available ≤ capacity and available =
    capacity − Σ(units of the confirmed reservations of the pool). *)
Theorem reachable_poolInvariant (s : Store) (eventId : string) :
  reachable s → poolInvariant eventId s.
Proof.
  intros [Hseats Hpools]%reachable_consistent ev He.
  destruct (Hpools _ _ He) as [H0 Hsum].
  pose proof (unitsOf_nonneg eventId (reservations s) Hseats) as Hn.
  unfold confirmedUnits in *. lia.
Qed.

(** C1 on the scenario of the specification: reserve 5, reserve 3, cancel
    the first; 497 seats are available out of 500. *)
Lemma reachable_poolInvariant_run :
  let s := (exec (quiet (λ _, 9) "") (Cancel "r1") Scenario.twoReservations).2 in
  reachable s
  ∧ events s !! Scenario.pool = Some (mkEvent "Node.js Meet-up" 500 497 3 0 9)
  ∧ 0 ≤ 497 ≤ 500
  ∧ 497 = 500 - confirmedUnits Scenario.pool s.
Proof.
  cbv zeta.
  assert (APP_CONFIG.MIN_SEATS_PER_RESERVATION ≤ 5) as H5 by (vm_compute; discriminate).
  assert (APP_CONFIG.MIN_SEATS_PER_RESERVATION ≤ 3) as H3 by (vm_compute; discriminate).
  pose proof (reachable_exec _ (Cancel "r1") (λ _, 9) ""
                (reachable_exec _ (Reserve Scenario.pool "p2" 3) (λ _, 8) "r2"
                   (reachable_exec _ (Reserve Scenario.pool "p1" 5) (λ _, 7) "r1"
                      (reachable_seeded 0) H5) H3) I) as Hreach.
  split; [exact Hreach|]. split; [reflexivity|].
  apply (reachable_poolInvariant _ Scenario.pool Hreach
           (mkEvent "Node.js Meet-up" 500 497 3 0 9)).
  reflexivity.
Defined.

End Invariant.

(** * The validation middleware *)

Section Validation.

Lemma blank_cons c s :
  blank (String c s) ↔ isWhiteSpace c = true ∧ blank s.
Proof. unfold blank. simpl. by rewrite Forall_cons. Qed.

Lemma trimEnd_empty s : trimEnd s = EmptyString ↔ blank s.
Proof.
  induction s as [|c s IH]; [by split; [constructor|]|].
  rewrite blank_cons, <- IH. simpl.
  destruct (trimEnd s) as [|c' t], (isWhiteSpace c); split;
    try done; try (by intros [? ?]).
Qed.

Lemma trimStart_blank s : blank (trimStart s) ↔ blank s.
Proof.
  induction s as [|c s IH]; [done|]. simpl.
  destruct (isWhiteSpace c) eqn:Hc; [|done].
  rewrite blank_cons, IH. split; [done|by intros [_ ?]].
Qed.

Lemma trim_empty s : trim s = EmptyString ↔ blank s.
Proof. unfold trim. by rewrite trimEnd_empty, trimStart_blank. Qed.

Lemma trim_eqb s : String.eqb (trim s) "" = true ↔ blank s.
Proof. by rewrite String.eqb_eq, trim_empty. Qed.

Lemma blank_empty : blank "".
Proof. constructor. Qed.

(** What the first check of both validators comes to, on a string. *)
Lemma rejects_string s :
  String.eqb s "" || String.eqb (trim s) "" = true ↔ blank s.
Proof.
  rewrite orb_true_iff, trim_eqb, String.eqb_eq. split; [|by right].
  intros [->|?]; [apply blank_empty|done].
Qed.

(** A body that passes has the two fields at their types and in range. *)
Lemma validateReservationRequest_passed body rq :
  validateReservationRequest body = inr rq →
  RequestBody.partnerId body = JString (ReservationRequest.partnerId rq)
  ∧ ¬ blank (ReservationRequest.partnerId rq)
  ∧ RequestBody.seats body = JNumber (JInt (ReservationRequest.seats rq))
  ∧ 1 ≤ ReservationRequest.seats rq ≤ 10.
Proof.
  destruct body as [p n], rq as [pid k]. unfold validateReservationRequest.
  cbn [RequestBody.partnerId RequestBody.seats ReservationRequest.partnerId
       ReservationRequest.seats].
  destruct p as [| |b|x|s|]; try (by destruct b); try (by destruct x as [[]|]);
    try done.
  cbn [falsy typeof asString]. rewrite bool_decide_eq_true_2 by done.
  cbn [negb]. rewrite orb_false_r.
  destruct (String.eqb s "" || String.eqb (trim s) "") eqn:Hs; [done|].
  assert (¬ blank s) as Hnb.
  { intros Hb. apply rejects_string in Hb. congruence. }
  destruct n as [| |b|[z|]|s'|]; try done.
  cbn [orb bool_decide typeof isInteger asInteger negb].
  rewrite !bool_decide_eq_false_2 by done.
  rewrite bool_decide_eq_true_2 by done. cbn [orb negb].
  unfold APP_CONFIG.MIN_SEATS_PER_RESERVATION, APP_CONFIG.MAX_SEATS_PER_RESERVATION.
  destruct (z <? 1) eqn:Hlo; [done|].
  destruct (10 <? z) eqn:Hhi; [done|].
  intros [= <- <-]. apply Z.ltb_ge in Hlo, Hhi. done.
Qed.

(** Every refusal of the two validators is a 400. *)
Lemma validateReservationRequest_refused body res :
  validateReservationRequest body = inl res →
  statusCode res = HTTP_STATUS.BAD_REQUEST.
Proof.
  unfold validateReservationRequest.
  repeat (match goal with |- context [if ?b then _ else _] => destruct b end);
    by intros [= <-].
Qed.

Lemma validateReservationId_cases reservationId :
  (blank reservationId
   ∧ validateReservationId reservationId
     = inl (badRequest ERROR_MESSAGES.INVALID_RESERVATION_ID))
  ∨ (¬ blank reservationId
     ∧ validateReservationId reservationId = inr reservationId).
Proof.
  unfold validateReservationId.
  destruct (String.eqb reservationId "" || String.eqb (trim reservationId) "")
    eqn:Hs.
  - left. by apply rejects_string in Hs.
  - right. split; [|done]. intros Hb. apply rejects_string in Hb. congruence.
Qed.

(** X1: [validateReservationRequest] lets a body through exactly when
    [partnerId] is a string with a character that is not white space and
    [seats] is an integer between 1 and 10; the handler then gets that
    string, untrimmed, and that integer. *)
Theorem validateReservationRequest_accepts
    (body : RequestBody.t) (rq : ReservationRequest.t) :
  validateReservationRequest body = inr rq ↔
  RequestBody.partnerId body = JString (ReservationRequest.partnerId rq)
  ∧ ¬ blank (ReservationRequest.partnerId rq)
  ∧ RequestBody.seats body = JNumber (JInt (ReservationRequest.seats rq))
  ∧ 1 ≤ ReservationRequest.seats rq ≤ 10.
Proof.
  split; [apply validateReservationRequest_passed|].
  destruct body as [p n], rq as [pid k]. unfold validateReservationRequest.
  cbn [RequestBody.partnerId RequestBody.seats ReservationRequest.partnerId
       ReservationRequest.seats].
  intros (-> & Hnb & -> & Hlo & Hhi).
  cbn [falsy typeof asString isInteger asInteger].
  destruct (String.eqb pid "" || String.eqb (trim pid) "") eqn:Hs.
  { by apply rejects_string in Hs. }
  apply orb_false_elim in Hs as [H1 H2]. rewrite H1, H2. simpl.
  unfold APP_CONFIG.MIN_SEATS_PER_RESERVATION, APP_CONFIG.MAX_SEATS_PER_RESERVATION.
  by rewrite (proj2 (Z.ltb_ge _ _) Hlo), (proj2 (Z.ltb_ge _ _) Hhi).
Qed.

(** X1 on bodies: a padded name passes as it is; white space alone, a
    missing or fractional or quoted [seats], 0 and 11 are refused, each with
    its message. *)
Lemma validateReservationRequest_bodies :
  validateReservationRequest (RequestBody.mk (JString " acme ") (JNumber (JInt 10)))
    = inr (ReservationRequest.mk " acme " 10)
  ∧ validateReservationRequest (RequestBody.mk (JString "  ") (JNumber (JInt 5)))
    = inl (badRequest ERROR_MESSAGES.PARTNER_ID_REQUIRED)
  ∧ validateReservationRequest (RequestBody.mk (JString "acme") JUndefined)
    = inl (badRequest ERROR_MESSAGES.SEATS_REQUIRED)
  ∧ validateReservationRequest (RequestBody.mk (JString "acme") (JNumber JFraction))
    = inl (badRequest ERROR_MESSAGES.SEATS_MUST_BE_INTEGER)
  ∧ validateReservationRequest (RequestBody.mk (JString "acme") (JString "5"))
    = inl (badRequest ERROR_MESSAGES.SEATS_MUST_BE_INTEGER)
  ∧ validateReservationRequest (RequestBody.mk (JString "acme") (JNumber (JInt 0)))
    = inl (badRequest ERROR_MESSAGES.SEATS_MUST_BE_POSITIVE)
  ∧ validateReservationRequest (RequestBody.mk (JString "acme") (JNumber (JInt 11)))
    = inl (badRequest ERROR_MESSAGES.SEATS_MAX_EXCEEDED).
Proof. repeat split. Qed.

End Validation.

(** * Counting over the reservations *)

Section Counting.

Lemma weigh_empty f : weigh f ∅ = 0.
Proof. unfold weigh. by rewrite map_fold_empty. Qed.

Lemma weigh_insert_fresh f m k r :
  m !! k = None → weigh f (<[k := r]> m) = f r + weigh f m.
Proof.
  intros Hk. unfold weigh. rewrite map_fold_insert_L; [done| |done].
  intros. lia.
Qed.

Lemma weigh_delete f m k r :
  m !! k = Some r → weigh f m = f r + weigh f (delete k m).
Proof.
  intros Hk. unfold weigh. rewrite (map_fold_delete_L _ _ k r m); [done| |done].
  intros. lia.
Qed.

Lemma weigh_update f m k r r' :
  m !! k = Some r → weigh f (<[k := r']> m) = f r' - f r + weigh f m.
Proof.
  intros Hk. rewrite <- insert_delete_eq.
  rewrite weigh_insert_fresh by apply lookup_delete_eq.
  rewrite (weigh_delete f m k r Hk). lia.
Qed.

Lemma weigh_le f g m :
  (∀ k r, m !! k = Some r → f r ≤ g r) → weigh f m ≤ weigh g m.
Proof.
  induction m as [|k r m Hk IH] using map_ind.
  - intros _. by rewrite !weigh_empty.
  - intros Hall. rewrite !weigh_insert_fresh by done.
    assert (f r ≤ g r) by (apply (Hall k), lookup_insert_eq).
    assert (weigh f m ≤ weigh g m).
    { apply IH. intros k' r' Hl. apply (Hall k').
      rewrite lookup_insert_ne; [done|]. intros ->. congruence. }
    lia.
Qed.

Lemma weigh_scale c f m : weigh (λ r, c * f r) m = c * weigh f m.
Proof.
  induction m as [|k r m Hk IH] using map_ind.
  - rewrite !weigh_empty. lia.
  - rewrite !weigh_insert_fresh by done. rewrite IH. lia.
Qed.

Lemma unitsOf_weigh eventId m : unitsOf eventId m = weigh (contribution eventId) m.
Proof. done. Qed.

Lemma count_insert_fresh (P : IReservation → Prop) `{∀ r, Decision (P r)} m k r :
  m !! k = None →
  count P (<[k := r]> m) = (if decide (P r) then 1 else 0) + count P m.
Proof. intros Hk. unfold count. by rewrite weigh_insert_fresh. Qed.

Lemma count_update (P : IReservation → Prop) `{∀ r, Decision (P r)} m k r r' :
  m !! k = Some r →
  count P (<[k := r']> m)
    = (if decide (P r') then 1 else 0) - (if decide (P r) then 1 else 0)
      + count P m.
Proof. intros Hk. unfold count. by rewrite (weigh_update _ m k r). Qed.

(** [countDocuments] and the length of a [find] are counts. *)
Lemma size_filter_count (P : IReservation → Prop) `{∀ r, Decision (P r)}
    `{∀ kr : string * IReservation, Decision (P kr.2)} m :
  Z.of_nat (size (filter (λ kr : string * IReservation, P kr.2) m)) = count P m.
Proof.
  induction m as [|k r m Hk IH] using map_ind.
  - rewrite map_filter_empty, map_size_empty. unfold count.
    by rewrite weigh_empty.
  - rewrite count_insert_fresh by done. destruct (decide (P r)) as [Hp|Hp].
    + rewrite map_filter_insert_True by done.
      rewrite map_size_insert_None; [lia|].
      apply map_lookup_filter_None. by left.
    + rewrite map_filter_insert_False by done.
      rewrite delete_id by done. lia.
Qed.

Lemma length_filter_count (P : IReservation → Prop) `{∀ r, Decision (P r)}
    `{∀ kr : string * IReservation, Decision (P kr.2)} m :
  Z.of_nat (length (filter (λ kr : string * IReservation, P kr.2)
                           (map_to_list m))) = count P m.
Proof.
  induction m as [|k r m Hk IH] using map_ind.
  - rewrite map_to_list_empty. unfold count. by rewrite weigh_empty.
  - rewrite count_insert_fresh by done.
    rewrite (map_to_list_insert m k r Hk), filter_cons. simpl.
    repeat case_decide; simpl in *; try done; lia.
Qed.

Lemma getReservationCount_count eventId s :
  EventRepository.getReservationCount eventId s = confirmedFor eventId s.
Proof.
  unfold EventRepository.getReservationCount, confirmedFor.
  apply (size_filter_count (λ r, event_id r = eventId ∧ status r = confirmed)).
Qed.

Lemma getAllReservations_length eventId s :
  Z.of_nat (length (ReservationService.getAllReservations eventId s))
    = madeFor eventId s.
Proof.
  unfold ReservationService.getAllReservations, madeFor.
  rewrite length_fmap, merge_sort_Permutation.
  apply (length_filter_count (λ r, event_id r = eventId)).
Qed.

End Counting.

(** * One call, one request: what can happen to the database *)

Section Steps.
Import ReservationService.

Lemma exec_quiet_cases clk uuid c s :
  let s' := (exec (quiet clk uuid) c s).2 in
  s' = s
  ∨ (∃ eventId partnerId nseats ev,
       c = Reserve eventId partnerId nseats
       ∧ events s !! eventId = Some ev
       ∧ nseats ≤ available_seats ev
       ∧ reservations s !! uuid = None
       ∧ s' = reservedStore (quiet clk uuid) eventId partnerId nseats ev s)
  ∨ (∃ reservationId r ev,
       c = Cancel reservationId
       ∧ reservations s !! reservationId = Some r
       ∧ status r = confirmed
       ∧ events s !! event_id r = Some ev
       ∧ 0 ≤ available_seats ev + seats r
       ∧ s' = cancelledStore (quiet clk uuid) reservationId r ev s).
Proof.
  cbv zeta. destruct c as [eventId partnerId nseats|rid|eventId|eventId]; simpl.
  - destruct (reserveSeats (quiet clk uuid) eventId partnerId nseats s)
      as [r s'] eqn:Hr. simpl.
    apply reserveSeats_quiet_inv in Hr
      as [(e & -> & ->)|(ev & He & Hle & Hnn & Hfresh & -> & ->)]; [by left|].
    right. left. by exists eventId, partnerId, nseats, ev.
  - destruct (cancelReservation (quiet clk uuid) rid s) as [r s'] eqn:Hr. simpl.
    apply cancelReservation_quiet_inv in Hr
      as [(e & -> & ->)|(r0 & ev & Hl & Hst & He & Hnn & ->)]; [by left|].
    right. right. by exists rid, r0, ev.
  - left. unfold getEventSummary.
    by destruct (EventRepository.findById eventId s).
  - by left.
Qed.

Lemma handle_quiet_cases clk uuid req s :
  let s' := (handle (quiet clk uuid) req s).2 in
  s' = s
  ∨ (∃ body rq ev,
       req = POST_reservations body
       ∧ validateReservationRequest body = inr rq
       ∧ events s !! APP_CONFIG.DEFAULT_EVENT_ID = Some ev
       ∧ ReservationRequest.seats rq ≤ available_seats ev
       ∧ reservations s !! uuid = None
       ∧ s' = reservedStore (quiet clk uuid) APP_CONFIG.DEFAULT_EVENT_ID
                (ReservationRequest.partnerId rq) (ReservationRequest.seats rq)
                ev s)
  ∨ (∃ reservationId r ev,
       req = DELETE_reservation reservationId
       ∧ reservations s !! reservationId = Some r
       ∧ status r = confirmed
       ∧ events s !! event_id r = Some ev
       ∧ 0 ≤ available_seats ev + seats r
       ∧ s' = cancelledStore (quiet clk uuid) reservationId r ev s).
Proof.
  cbv zeta. destruct req as [body|rid| |]; simpl.
  - destruct (validateReservationRequest body) as [res|rq] eqn:Hv; [by left|].
    unfold ReservationController.reserveSeats.
    destruct (reserveSeats (quiet clk uuid) APP_CONFIG.DEFAULT_EVENT_ID
                (ReservationRequest.partnerId rq) (ReservationRequest.seats rq) s)
      as [r s'] eqn:Hr.
    apply reserveSeats_quiet_inv in Hr
      as [(e & -> & ->)|(ev & He & Hle & Hnn & Hfresh & -> & ->)]; [by left|].
    right. left. by exists body, rq, ev.
  - destruct (validateReservationId_cases rid) as [[_ ->]|[_ ->]]; [by left|].
    unfold ReservationController.cancelReservation.
    destruct (cancelReservation (quiet clk uuid) rid s) as [r s'] eqn:Hr.
    apply cancelReservation_quiet_inv in Hr
      as [(e & -> & ->)|(r0 & ev & Hl & Hst & He & Hnn & ->)]; [by left|].
    right. right. destruct r as [e|[]]; by exists rid, r0, ev.
  - left. unfold ReservationController.getEventSummary, getEventSummary.
    by destruct (EventRepository.findById _ s).
  - by left.
Qed.

Lemma exec_reserve_quiet clk uuid eventId partnerId nseats s ev :
  events s !! eventId = Some ev →
  nseats ≤ available_seats ev →
  reservations s !! uuid = None →
  (exec (quiet clk uuid) (Reserve eventId partnerId nseats) s).2
    = reservedStore (quiet clk uuid) eventId partnerId nseats ev s.
Proof.
  intros He Hle Hfresh. simpl.
  rewrite (reserveSeats_quiet_ok clk uuid _ _ _ _ ev) by (done || lia). done.
Qed.

Lemma exec_cancel_quiet clk uuid reservationId s r ev :
  reservations s !! reservationId = Some r →
  status r = confirmed →
  events s !! event_id r = Some ev →
  0 ≤ available_seats ev + seats r →
  (exec (quiet clk uuid) (Cancel reservationId) s).2
    = cancelledStore (quiet clk uuid) reservationId r ev s.
Proof.
  intros Hl Hst He Hnn. simpl.
  rewrite (cancelReservation_quiet_ok clk uuid _ _ r ev); [done| |done|done].
  unfold ReservationRepository.findConfirmedById. rewrite Hl.
  by rewrite decide_True.
Qed.

(** The server reaches only states that the engine reaches on admissible
    calls. *)
Lemma served_reachable s : served s → reachable s.
Proof.
  induction 1 as [now|s req clk uuid _ IH]; [apply reachable_seeded|].
  destruct (handle_quiet_cases clk uuid req s)
    as [->|[(body & rq & ev & _ & Hv & He & Hle & Hfresh & ->)
           |(rid & r & ev & _ & Hl & Hst & He & Hnn & ->)]]; [done| |].
  - apply validateReservationRequest_passed in Hv as (_ & _ & _ & Hlo & _).
    rewrite <- (exec_reserve_quiet clk uuid) by done.
    by apply reachable_exec.
  - rewrite <- (exec_cancel_quiet clk uuid) by done.
    by apply reachable_exec.
Qed.

(** Induction on the databases the engine reaches. *)
Lemma reachable_stores_ind (P : Store → Prop) :
  (∀ now, P (seeded now)) →
  (∀ clk uuid eventId partnerId nseats ev s,
     reachable s → P s →
     events s !! eventId = Some ev → 1 ≤ nseats → nseats ≤ available_seats ev →
     reservations s !! uuid = None →
     P (reservedStore (quiet clk uuid) eventId partnerId nseats ev s)) →
  (∀ clk uuid reservationId r ev s,
     reachable s → P s →
     reservations s !! reservationId = Some r → status r = confirmed →
     events s !! event_id r = Some ev →
     P (cancelledStore (quiet clk uuid) reservationId r ev s)) →
  ∀ s, reachable s → P s.
Proof.
  intros Hseed Hres Hcan s. induction 1 as [now|s c clk uuid Hs IH Hadm]; [done|].
  destruct (exec_quiet_cases clk uuid c s)
    as [->|[(eid & pid & n & ev & -> & He & Hle & Hfresh & ->)
           |(rid & r & ev & -> & Hl & Hst & He & Hnn & ->)]]; [done| |].
  - by apply Hres.
  - by apply Hcan.
Qed.

(** Induction on the databases the server reaches. *)
Lemma served_stores_ind (P : Store → Prop) :
  (∀ now, P (seeded now)) →
  (∀ clk uuid rq ev s,
     served s → P s →
     events s !! APP_CONFIG.DEFAULT_EVENT_ID = Some ev →
     ¬ blank (ReservationRequest.partnerId rq) →
     1 ≤ ReservationRequest.seats rq ≤ 10 →
     ReservationRequest.seats rq ≤ available_seats ev →
     reservations s !! uuid = None →
     P (reservedStore (quiet clk uuid) APP_CONFIG.DEFAULT_EVENT_ID
          (ReservationRequest.partnerId rq) (ReservationRequest.seats rq) ev s)) →
  (∀ clk uuid reservationId r ev s,
     served s → P s →
     reservations s !! reservationId = Some r → status r = confirmed →
     events s !! event_id r = Some ev →
     P (cancelledStore (quiet clk uuid) reservationId r ev s)) →
  ∀ s, served s → P s.
Proof.
  intros Hseed Hres Hcan s. induction 1 as [now|s req clk uuid Hs IH]; [done|].
  destruct (handle_quiet_cases clk uuid req s)
    as [->|[(body & rq & ev & _ & Hv & He & Hle & Hfresh & ->)
           |(rid & r & ev & _ & Hl & Hst & He & Hnn & ->)]]; [done| |].
  - apply validateReservationRequest_passed in Hv as (_ & Hnb & _ & Hrange).
    by apply Hres.
  - by apply Hcan.
Qed.

End Steps.

(** * What a call running alone does to a reservation and to a pool *)

Section Lifecycle.
Import ReservationService ReservationRepository EventRepository.

(** X2: a call that runs alone never removes a reservation and never
    rewrites one, except that the cancel of a confirmed reservation turns
    its status to cancelled and stamps [cancelled_at]; pool, partner, seats
    and creation time stay, and a cancelled reservation never changes
    again. *)
Theorem exec_reservation_lifecycle
    (clk : nat → Z) (uuid : string) (c : Call) (s : Store)
    (reservationId : string) (r : IReservation) :
  reservations s !! reservationId = Some r →
  let s' := (exec (quiet clk uuid) c s).2 in
  (reservations s' !! reservationId = Some r
   ∨ (c = Cancel reservationId
      ∧ status r = confirmed
      ∧ reservations s' !! reservationId
        = Some (mkReservation (event_id r) (partner_id r) (seats r) cancelled
                  (created_at r) (Some (clk 2%nat)))))
  ∧ (status r = cancelled → reservations s' !! reservationId = Some r).
Proof.
  intros Hl. cbv zeta.
  assert (reservations (exec (quiet clk uuid) c s).2 !! reservationId = Some r
          ∨ (c = Cancel reservationId
             ∧ status r = confirmed
             ∧ reservations (exec (quiet clk uuid) c s).2 !! reservationId
               = Some (markCancelled (clk 2%nat) r))) as Hcases.
  { destruct (exec_quiet_cases clk uuid c s)
      as [->|[(eid & pid & n & ev & -> & He & Hle & Hfresh & ->)
             |(rid & r0 & ev & -> & Hl0 & Hst & He & Hnn & ->)]].
    - by left.
    - left. unfold reservedStore. simpl.
      rewrite lookup_insert_ne; [done|]. intros <-. congruence.
    - unfold cancelledStore. simpl.
      destruct (decide (rid = reservationId)) as [->|Hne].
      + right. assert (r0 = r) as -> by congruence.
        by rewrite lookup_insert_eq.
      + left. by rewrite lookup_insert_ne. }
  split; [done|].
  intros Hst. destruct Hcases as [?|(_ & Hc & _)]; [done|congruence].
Qed.

Lemma exec_reservation_lifecycle_run :
  reservations (exec (quiet (λ _, 9) "") (Cancel "r1") Scenario.twoReservations).2
    !! "r1" = Some (mkReservation Scenario.pool "p1" 5 cancelled 7 (Some 9))
  ∧ reservations (exec (quiet (λ _, 9) "") (Cancel "r1") Scenario.twoReservations).2
      !! "r2" = Some (mkReservation Scenario.pool "p2" 3 confirmed 8 None)
  ∧ reservations (exec (quiet (λ _, 12) "") (Cancel "r1") Scenario.oneCancelled).2
      !! "r1" = Some (mkReservation Scenario.pool "p1" 5 cancelled 7 (Some 9)).
Proof.
  pose proof (exec_reservation_lifecycle (λ _, 9) "" (Cancel "r1")
                Scenario.twoReservations "r1"
                (mkReservation Scenario.pool "p1" 5 confirmed 7 None) eq_refl)
    as [Hr1 _].
  pose proof (exec_reservation_lifecycle (λ _, 9) "" (Cancel "r1")
                Scenario.twoReservations "r2"
                (mkReservation Scenario.pool "p2" 3 confirmed 8 None) eq_refl)
    as [Hr2 _].
  pose proof (exec_reservation_lifecycle (λ _, 12) "" (Cancel "r1")
                Scenario.oneCancelled "r1"
                (mkReservation Scenario.pool "p1" 5 cancelled 7 (Some 9)) eq_refl)
    as [_ Hr3].
  split; [|split].
  - destruct Hr1 as [Hkept|(_ & _ & Hturned)]; [|exact Hturned].
    vm_compute in Hkept. discriminate.
  - destruct Hr2 as [Hkept|(Hc & _)]; [exact Hkept|discriminate].
  - by apply Hr3.
Defined.

(** X3: a call that runs alone neither adds nor removes a pool, and leaves
    the name, the capacity and the creation time of every pool as they
    were; the record of a pool is either untouched or has its version
    incremented by exactly 1. *)
Theorem exec_pool_stability
    (clk : nat → Z) (uuid : string) (c : Call) (s : Store) (eventId : string) :
  let s' := (exec (quiet clk uuid) c s).2 in
  (events s' !! eventId = None ↔ events s !! eventId = None)
  ∧ (∀ ev ev', events s !! eventId = Some ev →
       events s' !! eventId = Some ev' →
       name ev' = name ev
       ∧ total_seats ev' = total_seats ev
       ∧ event_created_at ev' = event_created_at ev
       ∧ (ev' = ev ∨ version ev' = version ev + 1)).
Proof.
  cbv zeta.
  destruct (exec_quiet_cases clk uuid c s)
    as [->|[(eid & pid & n & ev0 & -> & He & Hle & Hfresh & ->)
           |(rid & r0 & ev0 & -> & Hl0 & Hst & He & Hnn & ->)]].
  - split; [done|]. intros ev ev' H1 H2.
    assert (ev' = ev) as -> by congruence. by repeat split; [..|left].
  - unfold reservedStore. simpl.
    destruct (decide (eid = eventId)) as [->|Hne].
    + rewrite lookup_insert_eq. split; [by rewrite He|].
      intros ev ev' H1 [= <-]. assert (ev0 = ev) as -> by congruence.
      repeat split; simpl; by right.
    + rewrite lookup_insert_ne by done. split; [done|].
      intros ev ev' H1 H2. assert (ev' = ev) as -> by congruence.
      by repeat split; [..|left].
  - unfold cancelledStore. simpl.
    destruct (decide (event_id r0 = eventId)) as [<-|Hne].
    + rewrite lookup_insert_eq. split; [by rewrite He|].
      intros ev ev' H1 [= <-]. assert (ev0 = ev) as -> by congruence.
      repeat split; simpl; by right.
    + rewrite lookup_insert_ne by done. split; [done|].
      intros ev ev' H1 H2. assert (ev' = ev) as -> by congruence.
      by repeat split; [..|left].
Qed.

(** X4: [ReservationRepository.cancel] returns [false] exactly when no
    reservation is stored under the id or the stored one is already
    cancelled with this very timestamp; a stored reservation is rewritten
    whatever its status, so that cancelling a cancelled reservation at a
    later time returns [true] and overwrites [cancelled_at]. Pools and the
    other reservations are not touched. *)
Theorem cancel_result (reservationId : string) (now : Z) (s : Store) :
  let res := cancel reservationId now s in
  (res.1 = false ↔
     reservations s !! reservationId = None
     ∨ ∃ r, reservations s !! reservationId = Some r
            ∧ status r = cancelled ∧ cancelled_at r = Some now)
  ∧ (∀ r, reservations s !! reservationId = Some r →
       reservations res.2 !! reservationId
         = Some (mkReservation (event_id r) (partner_id r) (seats r) cancelled
                   (created_at r) (Some now)))
  ∧ (∀ rid, rid ≠ reservationId →
       reservations res.2 !! rid = reservations s !! rid)
  ∧ events res.2 = events s.
Proof.
  cbv zeta. unfold cancel.
  destruct (reservations s !! reservationId) as [r|] eqn:Hl; simpl.
  - split; [|split; [|split]].
    + rewrite bool_decide_eq_false. split.
      * intros Hsame. right. exists r. split; [done|].
        apply dec_stable in Hsame. rewrite <- Hsame. done.
      * intros [?|(r' & [= <-] & Hst & Hat)]; [done|].
        intros Hne. apply Hne. destruct r. simpl in *. by subst.
    + intros r' [= <-]. by rewrite lookup_insert_eq.
    + intros rid Hne. by rewrite lookup_insert_ne.
    + done.
  - split; [|split; [|split]]; try done.
    split; [by left|done].
Qed.

Lemma cancel_result_run :
  (cancel "r1" 9 Scenario.oneCancelled).1 = false
  ∧ (cancel "r1" 12 Scenario.oneCancelled).1 = true
  ∧ reservations (cancel "r1" 12 Scenario.oneCancelled).2 !! "r1"
    = Some (mkReservation Scenario.pool "p1" 5 cancelled 7 (Some 12))
  ∧ (cancel "never-created" 12 Scenario.oneCancelled).1 = false.
Proof.
  destruct (cancel_result "r1" 9 Scenario.oneCancelled) as (Hsame & _).
  destruct (cancel_result "r1" 12 Scenario.oneCancelled) as (Hlater & Hwrite & _).
  destruct (cancel_result "never-created" 12 Scenario.oneCancelled) as (Hnone & _).
  split; [|split; [|split]].
  - apply Hsame. right.
    exists (mkReservation Scenario.pool "p1" 5 cancelled 7 (Some 9)).
    by repeat split.
  - apply not_false_iff_true. intros Hf. apply Hlater in Hf
      as [Hf|(r & Hr & _ & Hat)]; [vm_compute in Hf; discriminate|].
    vm_compute in Hr. injection Hr as <-. simpl in Hat. discriminate.
  - apply (Hwrite (mkReservation Scenario.pool "p1" 5 cancelled 7 (Some 9))).
    reflexivity.
  - apply Hnone. left. reflexivity.
Defined.

End Lifecycle.

(** * What holds of every database the engine reaches *)

Section Reached.
Import ReservationService ReservationRepository EventRepository.

Ltac count_cases :=
  repeat (case_decide; simpl in *); destruct_and?;
  try lia; try done; try (exfalso; intuition congruence).

Lemma reachable_referential s : reachable s → referential s.
Proof.
  revert s. apply reachable_stores_ind.
  - intros now rid r. rewrite seeded_eq. simpl. by rewrite lookup_empty.
  - intros clk uuid eid pid n ev s _ IH He _ _ _ rid r.
    unfold reservedStore. simpl.
    intros [[_ <-]|[_ Hl]]%lookup_insert_Some; simpl.
    + by rewrite lookup_insert_eq.
    + apply lookup_insert_is_Some'. right. by apply (IH rid).
  - intros clk uuid rid0 r0 ev s _ IH Hl0 _ He rid r.
    unfold cancelledStore. simpl.
    intros [[_ <-]|[_ Hl]]%lookup_insert_Some; simpl.
    + by rewrite lookup_insert_eq.
    + apply lookup_insert_is_Some'. right. by apply (IH rid).
Qed.

(** The seeded pool is there, under its name and with its 500 seats, and it
    is the only pool. *)
Lemma reachable_default_pool s :
  reachable s →
  (∃ ev, events s !! APP_CONFIG.DEFAULT_EVENT_ID = Some ev
         ∧ name ev = "Node.js Meet-up" ∧ total_seats ev = 500)
  ∧ (∀ eid, is_Some (events s !! eid) → eid = APP_CONFIG.DEFAULT_EVENT_ID).
Proof.
  revert s. apply reachable_stores_ind.
  - intros now. rewrite seeded_eq. simpl. split.
    + eexists. by rewrite lookup_insert_eq.
    + intros eid [ev [[<- _]|[_ Hl]]%lookup_insert_Some]; [done|].
      by rewrite lookup_empty in Hl.
  - intros clk uuid eid pid n ev s _ [(ev0 & H0 & Hn & Ht) Honly] He _ _ _.
    unfold reservedStore. simpl.
    assert (eid = APP_CONFIG.DEFAULT_EVENT_ID) as -> by (apply Honly; eauto).
    assert (ev0 = ev) as -> by congruence. split.
    + eexists. by rewrite lookup_insert_eq.
    + intros eid' [Heq|Hs]%lookup_insert_is_Some; [done|apply Honly, Hs].
  - intros clk uuid rid r ev s _ [(ev0 & H0 & Hn & Ht) Honly] _ _ He.
    unfold cancelledStore. simpl.
    assert (event_id r = APP_CONFIG.DEFAULT_EVENT_ID) as Hid by (apply Honly; eauto).
    rewrite Hid in He |- *.
    assert (ev0 = ev) as -> by congruence. split.
    + eexists. by rewrite lookup_insert_eq.
    + intros eid' [Heq|Hs]%lookup_insert_is_Some; [done|apply Honly, Hs].
Qed.

(** X5: in every state the engine reaches from the seeded database, the
    version of a pool is the number of reservations ever made for it plus
    the number of those that were cancelled: every reserve and every cancel
    that went through has counted once, and nothing else has. *)
Theorem reachable_version_counts (s : Store) (eventId : string) (ev : IEvent) :
  reachable s →
  events s !! eventId = Some ev →
  version ev = madeFor eventId s + cancelledFor eventId s.
Proof.
  intros Hs. revert eventId ev. revert s Hs.
  apply (reachable_stores_ind
           (λ s, ∀ eid ev, events s !! eid = Some ev →
                   version ev = madeFor eid s + cancelledFor eid s)).
  - intros now eid ev. rewrite seeded_eq. unfold madeFor, cancelledFor, count.
    simpl. rewrite !weigh_empty.
    intros [[_ <-]|[_ Hl]]%lookup_insert_Some; [done|].
    by rewrite lookup_empty in Hl.
  - intros clk uuid eid pid n ev0 s _ IH He _ _ Hfresh eid' ev'.
    unfold reservedStore, madeFor, cancelledFor. simpl.
    rewrite !count_insert_fresh by done. simpl.
    intros [[<- <-]|[Hne Hl]]%lookup_insert_Some.
    + specialize (IH _ _ He). unfold madeFor, cancelledFor in IH. simpl.
      count_cases.
    + specialize (IH _ _ Hl). unfold madeFor, cancelledFor in IH.
      count_cases.
  - intros clk uuid rid r ev0 s _ IH Hl0 Hst He eid' ev'.
    unfold cancelledStore, madeFor, cancelledFor. simpl.
    rewrite !(count_update _ _ _ r) by done. simpl.
    intros [[<- <-]|[Hne Hl]]%lookup_insert_Some.
    + specialize (IH _ _ He). unfold madeFor, cancelledFor in IH. simpl.
      count_cases.
    + specialize (IH _ _ Hl). unfold madeFor, cancelledFor in IH.
      count_cases.
Qed.

Lemma reachable_version_counts_run :
  let s := (exec (quiet (λ _, 9) "") (Cancel "r1") Scenario.twoReservations).2 in
  events s !! Scenario.pool = Some (mkEvent "Node.js Meet-up" 500 497 3 0 9)
  ∧ 3 = madeFor Scenario.pool s + cancelledFor Scenario.pool s.
Proof.
  cbv zeta.
  assert (APP_CONFIG.MIN_SEATS_PER_RESERVATION ≤ 5) as H5 by (vm_compute; discriminate).
  assert (APP_CONFIG.MIN_SEATS_PER_RESERVATION ≤ 3) as H3 by (vm_compute; discriminate).
  pose proof (reachable_exec _ (Cancel "r1") (λ _, 9) ""
                (reachable_exec _ (Reserve Scenario.pool "p2" 3) (λ _, 8) "r2"
                   (reachable_exec _ (Reserve Scenario.pool "p1" 5) (λ _, 7) "r1"
                      (reachable_seeded 0) H5) H3) I) as Hreach.
  split; [reflexivity|].
  apply (reachable_version_counts _ Scenario.pool
           (mkEvent "Node.js Meet-up" 500 497 3 0 9) Hreach).
  reflexivity.
Defined.

(** X6: on a database the engine has reached, a cancel that runs alone
    succeeds exactly when the id is that of a confirmed reservation, and
    otherwise fails with RESERVATION_NOT_FOUND: it never reports
    EVENT_NOT_FOUND or CONCURRENT_UPDATE_DETECTED. *)
Theorem cancelReservation_alone
    (s : Store) (clk : nat → Z) (uuid reservationId : string) :
  reachable s →
  match findConfirmedById reservationId s with
  | Some r =>
      ∃ ev, events s !! event_id r = Some ev
            ∧ cancelReservation (quiet clk uuid) reservationId s
              = (inr (), cancelledStore (quiet clk uuid) reservationId r ev s)
  | None =>
      cancelReservation (quiet clk uuid) reservationId s
        = (inl RESERVATION_NOT_FOUND, s)
  end.
Proof.
  intros Hs.
  destruct (findConfirmedById reservationId s) as [r|] eqn:Hf;
    [|by apply cancelReservation_no_reservation].
  apply findConfirmedById_Some in Hf as Hl. destruct Hl as [Hl Hst].
  destruct (reachable_referential s Hs _ _ Hl) as [ev He].
  destruct (reachable_consistent s Hs) as [Hseats Hpools].
  exists ev. split; [done|].
  apply cancelReservation_quiet_ok; [done|done|].
  pose proof (Hseats _ _ Hl). destruct (Hpools _ _ He). lia.
Qed.

Lemma cancelReservation_alone_run :
  cancelReservation (quiet (λ _, 9) "") "r1" Scenario.oneReservation
    = (inr (), Scenario.oneCancelled)
  ∧ cancelReservation (quiet (λ _, 9) "") "r7" Scenario.oneReservation
    = (inl RESERVATION_NOT_FOUND, Scenario.oneReservation).
Proof.
  assert (APP_CONFIG.MIN_SEATS_PER_RESERVATION ≤ 5) as H5 by (vm_compute; discriminate).
  pose proof (reachable_exec _ (Reserve Scenario.pool "p1" 5) (λ _, 7) "r1"
                (reachable_seeded 0) H5) as Hreach.
  pose proof (cancelReservation_alone _ (λ _, 9) "" "r1" Hreach) as Hr1.
  pose proof (cancelReservation_alone _ (λ _, 9) "" "r7" Hreach) as Hr7.
  split.
  - destruct Hr1 as (ev & _ & Hok). reflexivity.
  - exact Hr7.
Defined.

(** X7: [seedData] writes only where the pool is missing: seeding twice is
    seeding once, and seeding a database the engine has reached (a restart
    of the server) changes nothing, so that the seats taken stay taken. *)
Theorem seedData_keeps :
  (∀ now now' s, seedData now' (seedData now s) = seedData now s)
  ∧ (∀ now s, reachable s → seedData now s = s).
Proof.
  split.
  - intros now now' s. unfold seedData at 1.
    destruct (events (seedData now s) !! "node-meetup-2025") eqn:Hl; [done|].
    exfalso. revert Hl. unfold seedData.
    destruct (events s !! "node-meetup-2025") eqn:Hs; [congruence|].
    unfold EventRepository.create. rewrite Hs. simpl.
    by rewrite lookup_insert_eq.
  - intros now s Hs. destruct (reachable_default_pool s Hs) as [(ev & He & _) _].
    unfold seedData. unfold APP_CONFIG.DEFAULT_EVENT_ID in He. by rewrite He.
Qed.

Lemma seedData_keeps_run :
  seedData 99 Scenario.twoReservations = Scenario.twoReservations
  ∧ seedData 99 (seeded 0) = seeded 0.
Proof.
  destruct seedData_keeps as [Htwice Hreached].
  split; [|apply Htwice].
  apply Hreached.
  assert (APP_CONFIG.MIN_SEATS_PER_RESERVATION ≤ 5) as H5 by (vm_compute; discriminate).
  assert (APP_CONFIG.MIN_SEATS_PER_RESERVATION ≤ 3) as H3 by (vm_compute; discriminate).
  exact (reachable_exec _ (Reserve Scenario.pool "p2" 3) (λ _, 8) "r2"
           (reachable_exec _ (Reserve Scenario.pool "p1" 5) (λ _, 7) "r1"
              (reachable_seeded 0) H5) H3).
Defined.

End Reached.

(** * The routes *)

Section Routes.
Import ReservationService ReservationRepository EventRepository.

Lemma handleError_table e :
  ReservationController.handleError e =
  match e with
  | NOT_ENOUGH_SEATS => mkResponse 409 (ErrorResponse "Not enough seats left")
  | RESERVATION_NOT_FOUND =>
      mkResponse 404 (ErrorResponse "Reservation not found or already cancelled")
  | EVENT_NOT_FOUND => mkResponse 404 (ErrorResponse "Event not found")
  | CONCURRENT_UPDATE_DETECTED =>
      mkResponse 409 (ErrorResponse "Concurrent update detected, please retry")
  | DUPLICATE_KEY => mkResponse 500 (ErrorResponse "Internal server error")
  end.
Proof. by destruct e. Qed.

Lemma handleError_status e :
  statusCode (ReservationController.handleError e) ≠ 201
  ∧ statusCode (ReservationController.handleError e) ≠ 204.
Proof. rewrite handleError_table. by destruct e. Qed.

Lemma reserveSeats_success_id w eventId partnerId nseats s rid s' :
  reserveSeats w eventId partnerId nseats s = (inr rid, s') → rid = uuidv4 w.
Proof.
  intros Hr.
  destruct (events s !! eventId) as [ev|] eqn:He;
    [|by rewrite (reserveSeats_no_event w _ _ _ _ He) in Hr].
  destruct (decide (available_seats ev < nseats)) as [Hlt|Hge];
    [by rewrite (reserveSeats_not_enough w _ _ _ _ _ He Hlt) in Hr|].
  apply Z.nlt_ge in Hge.
  destruct (updateSeatsWithVersion eventId (- nseats) (version ev) (clock w 1)
              (env w 1 s)) as [[|] s2] eqn:Hupd.
  - destruct (reservations (env w 2 s2) !! uuidv4 w) as [r0|] eqn:Hf.
    + rewrite (reserveSeats_duplicate w _ _ _ _ _ _ He Hge Hupd) in Hr by eauto.
      done.
    + rewrite (reserveSeats_ok w _ _ _ _ _ _ He Hge Hupd Hf) in Hr.
      by injection Hr as <- _.
  - rewrite (reserveSeats_conflict w _ _ _ _ _ He Hge) in Hr; [done|].
    by rewrite Hupd.
Qed.

(** X8: what POST /reservations answers. 201 with the generated id, the
    seats asked for and the status confirmed, when the body passes the
    validation and the service reserves; 400 and no call of the service when
    the body is refused; otherwise 409 for NOT_ENOUGH_SEATS and
    CONCURRENT_UPDATE_DETECTED and 404 for EVENT_NOT_FOUND, with the message
    of the service, and 500 with the fixed text 'Internal server error' for
    any other failure. Whenever the answer is not 201 the database holds
    nothing of the request. *)
Theorem post_reservations_answers (w : World) (body : RequestBody.t) (s : Store) :
  let res := (handle w (POST_reservations body) s).1 in
  let s' := (handle w (POST_reservations body) s).2 in
  (∃ rq, validateReservationRequest body = inr rq
         ∧ res = mkResponse 201
                   (ReservationResponse (uuidv4 w) (ReservationRequest.seats rq)
                      confirmed)
         ∧ reserveSeats w APP_CONFIG.DEFAULT_EVENT_ID
             (ReservationRequest.partnerId rq) (ReservationRequest.seats rq) s
           = (inr (uuidv4 w), s'))
  ∨ (validateReservationRequest body = inl res
     ∧ statusCode res = 400 ∧ s' = s)
  ∨ (∃ rq e k,
       validateReservationRequest body = inr rq
       ∧ reserveSeats w APP_CONFIG.DEFAULT_EVENT_ID
           (ReservationRequest.partnerId rq) (ReservationRequest.seats rq) s
         = (inl e, s')
       ∧ (k ≤ 2)%nat ∧ s' = others w k s
       ∧ res = match e with
               | NOT_ENOUGH_SEATS =>
                   mkResponse 409 (ErrorResponse "Not enough seats left")
               | CONCURRENT_UPDATE_DETECTED =>
                   mkResponse 409
                     (ErrorResponse "Concurrent update detected, please retry")
               | EVENT_NOT_FOUND => mkResponse 404 (ErrorResponse "Event not found")
               | _ => mkResponse 500 (ErrorResponse "Internal server error")
               end).
Proof.
  cbv zeta. simpl.
  destruct (validateReservationRequest body) as [res|rq] eqn:Hv.
  { right. left. simpl. repeat split.
    by apply validateReservationRequest_refused in Hv. }
  unfold ReservationController.reserveSeats.
  destruct (reserveSeats w APP_CONFIG.DEFAULT_EVENT_ID
              (ReservationRequest.partnerId rq) (ReservationRequest.seats rq) s)
    as [[e|rid] s'] eqn:Hr; simpl.
  - right. right.
    destruct (reserveSeats_failure w _ _ _ _ _ _ Hr) as (k & Hk & ->).
    exists rq, e, k. repeat split; try done.
    rewrite handleError_table. destruct e; try done.
    (* RESERVATION_NOT_FOUND is not thrown by reserveSeats *)
    exfalso. revert Hr. clear.
    intros Hr.
    destruct (events s !! APP_CONFIG.DEFAULT_EVENT_ID) as [ev|] eqn:He;
      [|by rewrite (reserveSeats_no_event w _ _ _ _ He) in Hr].
    destruct (decide (available_seats ev < ReservationRequest.seats rq))
      as [Hlt|Hge];
      [by rewrite (reserveSeats_not_enough w _ _ _ _ _ He Hlt) in Hr|].
    apply Z.nlt_ge in Hge.
    destruct (updateSeatsWithVersion APP_CONFIG.DEFAULT_EVENT_ID
                (- ReservationRequest.seats rq) (version ev) (clock w 1)
                (env w 1 s)) as [[|] s2] eqn:Hupd.
    + destruct (reservations (env w 2 s2) !! uuidv4 w) as [r0|] eqn:Hf.
      * by rewrite (reserveSeats_duplicate w _ _ _ _ _ _ He Hge Hupd) in Hr
          by eauto.
      * by rewrite (reserveSeats_ok w _ _ _ _ _ _ He Hge Hupd Hf) in Hr.
    + rewrite (reserveSeats_conflict w _ _ _ _ _ He Hge) in Hr; [done|].
      by rewrite Hupd.
  - left. apply reserveSeats_success_id in Hr as Hid. subst rid.
    by exists rq.
Qed.

(** X8 run: 201 on the seeded pool; 400 on a body without seats; 409 when
    another client takes the version in between; 500, with nothing of the
    duplicate key error in the answer, when the generated id is taken. *)
Lemma post_reservations_answers_run :
  handle (quiet (λ _, 7) "r1")
    (POST_reservations (RequestBody.mk (JString "p1") (JNumber (JInt 5))))
    (seeded 0)
  = (mkResponse 201 (ReservationResponse "r1" 5 confirmed), Scenario.oneReservation)
  ∧ handle (quiet (λ _, 7) "r1")
      (POST_reservations (RequestBody.mk (JString "p1") JUndefined)) (seeded 0)
    = (mkResponse 400 (ErrorResponse "seats is required"), seeded 0)
  ∧ handle (Scenario.duringGap 1 Scenario.otherReserve 8 "r3")
      (POST_reservations (RequestBody.mk (JString "p3") (JNumber (JInt 2))))
      (seeded 0)
    = (mkResponse 409 (ErrorResponse "Concurrent update detected, please retry"),
       Scenario.otherReserve (seeded 0))
  ∧ handle (quiet (λ _, 8) "r1")
      (POST_reservations (RequestBody.mk (JString "p3") (JNumber (JInt 2))))
      Scenario.oneReservation
    = (mkResponse 500 (ErrorResponse "Internal server error"),
       Scenario.oneReservation).
Proof. repeat split; reflexivity. Qed.

End Routes.

(** * Running alone *)

Section Alone.
Import ReservationService ReservationRepository EventRepository.



End Alone.

(** * What holds of every database the server reaches *)

Section Served.
Import ReservationService ReservationRepository EventRepository.

(** Every reservation the server has stored went through the validation. *)
Lemma served_reservations s :
  served s →
  ∀ rid r, reservations s !! rid = Some r →
    event_id r = APP_CONFIG.DEFAULT_EVENT_ID
    ∧ 1 ≤ seats r ≤ 10
    ∧ ¬ blank (partner_id r).
Proof.
  revert s.
  apply (served_stores_ind
           (λ s, ∀ rid r, reservations s !! rid = Some r →
                   event_id r = APP_CONFIG.DEFAULT_EVENT_ID
                   ∧ 1 ≤ seats r ≤ 10 ∧ ¬ blank (partner_id r))).
  - intros now rid r. rewrite seeded_eq. simpl. by rewrite lookup_empty.
  - intros clk uuid rq ev s _ IH _ Hnb Hrange _ _ rid r.
    unfold reservedStore. simpl.
    intros [[_ <-]|[_ Hl]]%lookup_insert_Some; [done|by apply (IH rid)].
  - intros clk uuid rid0 r0 ev s _ IH Hl0 _ _ rid r.
    unfold cancelledStore. simpl.
    intros [[_ <-]|[_ Hl]]%lookup_insert_Some; [|by apply (IH rid)].
    simpl. by apply (IH rid0).
Qed.

(** X10: whatever the requests carry (any JSON in the body, any id in the
    path), every state the server reaches from the seeded database keeps
    0 ≤ available ≤ capacity and available = capacity − Σ(confirmed seats)
    for the pool, and holds only reservations of this pool for 1 to 10 seats
    with a partner id that is not blank. *)
Theorem served_invariant (s : Store) :
  served s →
  poolInvariant APP_CONFIG.DEFAULT_EVENT_ID s
  ∧ ∀ rid r, reservations s !! rid = Some r →
      event_id r = APP_CONFIG.DEFAULT_EVENT_ID
      ∧ 1 ≤ seats r ≤ 10
      ∧ ¬ blank (partner_id r).
Proof.
  intros Hs. split; [|by apply served_reservations].
  apply served_reachable, reachable_consistent in Hs as [Hseats Hpools].
  intros ev He. destruct (Hpools _ _ He) as [H0 Hsum].
  pose proof (unitsOf_nonneg APP_CONFIG.DEFAULT_EVENT_ID (reservations s) Hseats).
  unfold confirmedUnits in *. lia.
Qed.

(** A body with -5 seats, a body with 11 seats and a blank path are refused
    on the way; the pool ends as the two accepted requests leave it. *)
Lemma served_invariant_run :
  let s1 := (handle (quiet (λ _, 7) "r1")
               (POST_reservations (RequestBody.mk (JString "p1") (JNumber (JInt 5))))
               (seeded 0)).2 in
  let s2 := (handle (quiet (λ _, 8) "x")
               (POST_reservations (RequestBody.mk (JString "p9") (JNumber (JInt (-5)))))
               s1).2 in
  let s3 := (handle (quiet (λ _, 8) "y")
               (POST_reservations (RequestBody.mk (JString "p9") (JNumber (JInt 11))))
               s2).2 in
  let s4 := (handle (quiet (λ _, 8) "") (DELETE_reservation " ") s3).2 in
  let s5 := (handle (quiet (λ _, 9) "") (DELETE_reservation "r1") s4).2 in
  served s5
  ∧ events s5 !! APP_CONFIG.DEFAULT_EVENT_ID
    = Some (mkEvent "Node.js Meet-up" 500 500 2 0 9)
  ∧ 0 ≤ 500 ≤ 500
  ∧ 500 = 500 - confirmedUnits APP_CONFIG.DEFAULT_EVENT_ID s5.
Proof.
  cbv zeta.
  pose proof (served_handle _ (DELETE_reservation "r1") (λ _, 9) ""
    (served_handle _ (DELETE_reservation " ") (λ _, 8) ""
      (served_handle _
         (POST_reservations (RequestBody.mk (JString "p9") (JNumber (JInt 11))))
         (λ _, 8) "y"
        (served_handle _
           (POST_reservations (RequestBody.mk (JString "p9") (JNumber (JInt (-5)))))
           (λ _, 8) "x"
          (served_handle _
             (POST_reservations (RequestBody.mk (JString "p1") (JNumber (JInt 5))))
             (λ _, 7) "r1" (served_seeded 0)))))) as Hserved.
  split; [exact Hserved|]. split; [reflexivity|].
  destruct (served_invariant _ Hserved) as [Hpool _].
  apply (Hpool (mkEvent "Node.js Meet-up" 500 500 2 0 9)). reflexivity.
Defined.

Lemma indicator_contribution eventId r :
  1 ≤ seats r ≤ 10 →
  (if decide (event_id r = eventId ∧ status r = confirmed) then 1 else 0)
    ≤ contribution eventId r
  ∧ contribution eventId r
    ≤ 10 * (if decide (event_id r = eventId ∧ status r = confirmed) then 1 else 0).
Proof. intros Hr. unfold contribution. case_decide; lia. Qed.

(** X11: on every state the server reaches, GET /reservations answers 200
    (never 404) with the pool 'Node.js Meet-up' of 500 seats and leaves the
    database alone; [availableSeats] is 500 less the confirmed seats,
    [reservationCount] is the number of confirmed reservations, and the
    seats taken lie between [reservationCount] and 10 times it. *)
Theorem served_summary (s : Store) (clk : nat → Z) (uuid : string) :
  served s →
  ∃ smry,
    handle (quiet clk uuid) GET_reservations s
      = (mkResponse 200 (SummaryResponse smry), s)
    ∧ EventSummary.eventId smry = APP_CONFIG.DEFAULT_EVENT_ID
    ∧ EventSummary.name smry = "Node.js Meet-up"
    ∧ EventSummary.totalSeats smry = 500
    ∧ EventSummary.availableSeats smry
      = 500 - confirmedUnits APP_CONFIG.DEFAULT_EVENT_ID s
    ∧ EventSummary.reservationCount smry
      = confirmedFor APP_CONFIG.DEFAULT_EVENT_ID s
    ∧ EventSummary.reservationCount smry
      ≤ 500 - EventSummary.availableSeats smry
      ≤ 10 * EventSummary.reservationCount smry.
Proof.
  intros Hs. pose proof (served_reservations s Hs) as Hres.
  apply served_reachable in Hs.
  destruct (reachable_default_pool s Hs) as [(ev & He & Hname & Htotal) _].
  destruct (reachable_consistent s Hs) as [_ Hpools].
  destruct (Hpools _ _ He) as [_ Hsum]. rewrite Htotal in Hsum.
  eexists. split.
  { simpl. unfold ReservationController.getEventSummary, getEventSummary, findById.
    rewrite He. simpl. reflexivity. }
  simpl. rewrite getReservationCount_count.
  repeat split; try done.
  - rewrite Hsum. unfold confirmedUnits, confirmedFor, count.
    rewrite unitsOf_weigh.
    replace (500 - (500 - weigh (contribution APP_CONFIG.DEFAULT_EVENT_ID)
                            (reservations s)))
      with (weigh (contribution APP_CONFIG.DEFAULT_EVENT_ID) (reservations s))
      by lia.
    apply weigh_le. intros k r Hl.
    destruct (Hres _ _ Hl) as (_ & Hr & _).
    by apply indicator_contribution.
  - rewrite Hsum. unfold confirmedUnits, confirmedFor, count.
    rewrite unitsOf_weigh, <- weigh_scale.
    replace (500 - (500 - weigh (contribution APP_CONFIG.DEFAULT_EVENT_ID)
                            (reservations s)))
      with (weigh (contribution APP_CONFIG.DEFAULT_EVENT_ID) (reservations s))
      by lia.
    apply weigh_le. intros k r Hl.
    destruct (Hres _ _ Hl) as (_ & Hr & _).
    by apply indicator_contribution.
Qed.

Lemma served_summary_run :
  ∃ smry,
    handle (quiet (λ _, 20) "") GET_reservations Scenario.twoReservations
      = (mkResponse 200 (SummaryResponse smry), Scenario.twoReservations)
    ∧ EventSummary.availableSeats smry = 492
    ∧ EventSummary.reservationCount smry = 2.
Proof.
  assert (served Scenario.twoReservations) as Hserved.
  { exact (served_handle _
             (POST_reservations (RequestBody.mk (JString "p2") (JNumber (JInt 3))))
             (λ _, 8) "r2"
             (served_handle _
                (POST_reservations (RequestBody.mk (JString "p1") (JNumber (JInt 5))))
                (λ _, 7) "r1" (served_seeded 0))). }
  destruct (served_summary _ (λ _, 20) "" Hserved) as (smry & Hget & _).
  exists smry. split; [exact Hget|].
  vm_compute in Hget. injection Hget as <-. split; reflexivity.
Defined.

End Served.

Section Delete.
Import ReservationService ReservationRepository EventRepository.

(** X12: on every state the server reaches, a DELETE that runs alone
    answers 400 'Invalid reservationId' for a blank id; 204 without a body
    for the id of a confirmed reservation, which it cancels, giving the
    seats back to the pool; and 404 'Reservation not found or already
    cancelled' for any other id, unknown or already cancelled alike, leaving
    the database as it was. It answers neither 409 nor 500. *)
Theorem delete_reservation_alone
    (s : Store) (clk : nat → Z) (uuid reservationId : string) :
  served s →
  let res := handle (quiet clk uuid) (DELETE_reservation reservationId) s in
  (blank reservationId
   ∧ res = (mkResponse 400 (ErrorResponse "Invalid reservationId"), s))
  ∨ (∃ r ev, ¬ blank reservationId
       ∧ reservations s !! reservationId = Some r ∧ status r = confirmed
       ∧ events s !! APP_CONFIG.DEFAULT_EVENT_ID = Some ev
       ∧ res.1 = mkResponse 204 NoBody
       ∧ reservations res.2 !! reservationId
         = Some (mkReservation (event_id r) (partner_id r) (seats r) cancelled
                   (created_at r) (Some (clk 2%nat)))
       ∧ events res.2 !! APP_CONFIG.DEFAULT_EVENT_ID
         = Some (mkEvent (name ev) (total_seats ev)
                   (available_seats ev + seats r) (version ev + 1)
                   (event_created_at ev) (clk 3%nat)))
  ∨ (¬ blank reservationId
     ∧ findConfirmedById reservationId s = None
     ∧ res = (mkResponse 404
                (ErrorResponse "Reservation not found or already cancelled"), s)).
Proof.
  intros Hs. cbv zeta. simpl.
  destruct (validateReservationId_cases reservationId) as [[Hb ->]|[Hnb ->]];
    [by left|right].
  unfold ReservationController.cancelReservation.
  destruct (findConfirmedById reservationId s) as [r|] eqn:Hf.
  - left. apply findConfirmedById_Some in Hf as Hl. destruct Hl as [Hl Hst].
    pose proof (served_reservations s Hs _ _ Hl) as (Hid & _ & _).
    apply served_reachable in Hs.
    destruct (reachable_referential s Hs _ _ Hl) as [ev He].
    destruct (reachable_consistent s Hs) as [Hseats Hpools].
    assert (0 ≤ available_seats ev + seats r) as Hnn.
    { pose proof (Hseats _ _ Hl). destruct (Hpools _ _ He). lia. }
    rewrite (cancelReservation_quiet_ok clk uuid _ _ r ev Hf He Hnn).
    exists r, ev. unfold cancelledStore. simpl. rewrite Hid in He |- *.
    rewrite !lookup_insert_eq. repeat split; try done.
    unfold markCancelled. by rewrite Hid.
  - right. rewrite (cancelReservation_no_reservation _ _ _ Hf).
    by rewrite handleError_table.
Qed.

(** X12 run: the cancel of "r1" and its repetition. *)
Lemma delete_reservation_alone_run :
  served Scenario.oneReservation
  ∧ (handle (quiet (λ _, 9) "") (DELETE_reservation "r1") Scenario.oneReservation).1
    = mkResponse 204 NoBody
  ∧ handle (quiet (λ _, 11) "") (DELETE_reservation "r1") Scenario.oneCancelled
    = (mkResponse 404 (ErrorResponse "Reservation not found or already cancelled"),
       Scenario.oneCancelled).
Proof.
  assert (served Scenario.oneReservation) as H1.
  { exact (served_handle _
             (POST_reservations (RequestBody.mk (JString "p1") (JNumber (JInt 5))))
             (λ _, 7) "r1" (served_seeded 0)). }
  assert (served Scenario.oneCancelled) as H2.
  { exact (served_handle _ (DELETE_reservation "r1") (λ _, 9) "" H1). }
  assert (¬ blank "r1") as Hr1.
  { unfold blank. simpl. intros Hb. apply Forall_cons in Hb as [Hc _].
    vm_compute in Hc. discriminate. }
  split; [exact H1|]. split.
  - destruct (delete_reservation_alone _ (λ _, 9) "" "r1" H1)
      as [[Hb _]|[(r & ev & _ & _ & _ & _ & Hres & _)|(_ & Hf & _)]].
    + by destruct Hr1.
    + exact Hres.
    + vm_compute in Hf. discriminate.
  - destruct (delete_reservation_alone _ (λ _, 11) "" "r1" H2)
      as [[Hb _]|[(r & ev & _ & Hl & Hst & _)|(_ & _ & Hres)]].
    + by destruct Hr1.
    + vm_compute in Hl. injection Hl as <-. discriminate.
    + exact Hres.
Defined.

(** The repetition, an unknown id and a blank id, by evaluation. *)
Lemma delete_reservation_examples :
  handle (quiet (λ _, 11) "") (DELETE_reservation "r7") Scenario.oneCancelled
    = (mkResponse 404 (ErrorResponse "Reservation not found or already cancelled"),
       Scenario.oneCancelled)
  ∧ handle (quiet (λ _, 11) "") (DELETE_reservation "  ") Scenario.oneCancelled
    = (mkResponse 400 (ErrorResponse "Invalid reservationId"), Scenario.oneCancelled).
Proof. split; reflexivity. Qed.

(** X13: the listing of the pool only grows. A request that runs alone
    leaves the number of entries of GET /reservations/list as it was, unless
    it is a POST answered 201, which adds exactly one; a DELETE answered 204
    removes none (the cancelled reservation stays listed). *)
Theorem listing_counts (clk : nat → Z) (uuid : string) (req : Request) (s : Store) :
  let res := handle (quiet clk uuid) req s in
  let entries t := length (getAllReservations APP_CONFIG.DEFAULT_EVENT_ID t) in
  entries res.2
    = (entries s + (if decide (statusCode res.1 = 201%Z) then 1 else 0))%nat.
Proof.
  cbv zeta. apply Nat2Z.inj. rewrite Nat2Z.inj_add, !getAllReservations_length.
  assert (∀ e, Z.of_nat (if decide (statusCode (ReservationController.handleError e)
                                    = 201) then 1 else 0) = 0) as Herr.
  { intros e. rewrite decide_False; [done|apply handleError_status]. }
  destruct req as [body|rid| |]; simpl.
  - destruct (validateReservationRequest body) as [res|rq] eqn:Hv.
    { apply validateReservationRequest_refused in Hv. simpl.
      rewrite decide_False; [simpl; lia|]. rewrite Hv. done. }
    unfold ReservationController.reserveSeats.
    destruct (reserveSeats (quiet clk uuid) APP_CONFIG.DEFAULT_EVENT_ID
                (ReservationRequest.partnerId rq) (ReservationRequest.seats rq) s)
      as [r s'] eqn:Hr.
    apply reserveSeats_quiet_inv in Hr
      as [(e & -> & ->)|(ev & He & Hle & Hnn & Hfresh & -> & ->)];
      cbn [fst snd].
    + rewrite Herr. lia.
    + unfold madeFor, reservedStore. cbn [reservations statusCode].
      rewrite count_insert_fresh by done. cbn [event_id].
      rewrite !decide_True by done. lia.
  - destruct (validateReservationId_cases rid) as [[_ ->]|[_ ->]]; cbn [fst snd].
    { rewrite decide_False by done. lia. }
    unfold ReservationController.cancelReservation.
    destruct (cancelReservation (quiet clk uuid) rid s) as [r s'] eqn:Hr.
    apply cancelReservation_quiet_inv in Hr
      as [(e & -> & ->)|(r0 & ev & Hl & Hst & He & Hnn & ->)]; cbn [fst snd].
    + rewrite Herr. lia.
    + assert (madeFor APP_CONFIG.DEFAULT_EVENT_ID
                (cancelledStore (quiet clk uuid) rid r0 ev s)
              = madeFor APP_CONFIG.DEFAULT_EVENT_ID s) as Hsame.
      { unfold madeFor, cancelledStore. cbn [reservations].
        rewrite (count_update _ _ _ r0) by done. cbn [markCancelled event_id]. lia. }
      destruct r as [e|[]]; cbn [fst snd]; rewrite Hsame.
      * rewrite Herr. lia.
      * rewrite decide_False by done. lia.
  - unfold ReservationController.getEventSummary, getEventSummary.
    destruct (findById _ s); cbn [fst snd env quiet]; rewrite decide_False by done;
      lia.
  - lia.
Qed.

End Delete.

(** * Optimistic locking *)

Section Locking.
Import ReservationService ReservationRepository EventRepository.



End Locking.
